(** * sci-scraper: the row extractor and the job scheduler

    A shallow embedding of [internal/scraper] ([ScrapeYear], [isNumericShort])
    and of [cmd/sci-scraper] ([main], [worker]), with the properties of the
    design document proved or refuted on it.

    Go strings are byte sequences: they are modelled as [string] (a list of
    [ascii], one per byte).  Go's [int] is a 64-bit integer: it is modelled
    as [Z] with the wrap-around written out where the code does arithmetic
    on it.  Positions in a goquery selection are list positions ([nat]). *)

From Stdlib Require Import ZArith Lia Ascii String List Bool DecimalString DecimalZ.
From stdpp Require Import base gmap strings list.

(** ** Bytes and runes *)

Definition byte (c : ascii) : Z := Z.of_N (N_of_ascii c).

Definition RuneError : Z := 0xFFFD.
Definition RuneSelf : Z := 0x80.

(** [len(s)]: the number of bytes. *)
Abbreviation len := String.length.

Fixpoint skip (n : nat) (s : string) : string :=
  match n, s with
  | S n', String _ r => skip n' r
  | _, _ => s
  end.

(** ** unicode/utf8 *)

Module utf8.

(** The entries of the table [first] that [DecodeRuneInString] consults:
    the size of the sequence a lead byte announces and the range accepted
    for its second byte; [None] is the entry [xx] (not a lead byte).  The
    ASCII entries [as] are handled before the table is read. *)
Definition first (s0 : Z) : option (nat * (Z * Z)) :=
  if (0xC2 <=? s0)%Z && (s0 <=? 0xDF)%Z then Some (2, (0x80, 0xBF)%Z)
  else if (s0 =? 0xE0)%Z then Some (3, (0xA0, 0xBF)%Z)
  else if (0xE1 <=? s0)%Z && (s0 <=? 0xEC)%Z then Some (3, (0x80, 0xBF)%Z)
  else if (s0 =? 0xED)%Z then Some (3, (0x80, 0x9F)%Z)
  else if (0xEE <=? s0)%Z && (s0 <=? 0xEF)%Z then Some (3, (0x80, 0xBF)%Z)
  else if (s0 =? 0xF0)%Z then Some (4, (0x90, 0xBF)%Z)
  else if (0xF1 <=? s0)%Z && (s0 <=? 0xF3)%Z then Some (4, (0x80, 0xBF)%Z)
  else if (s0 =? 0xF4)%Z then Some (4, (0x80, 0x8F)%Z)
  else None.

Definition locb : Z := 0x80.
Definition hicb : Z := 0xBF.
Definition maskx : Z := 0x3F.
Definition mask2 : Z := 0x1F.
Definition mask3 : Z := 0x0F.
Definition mask4 : Z := 0x07.

(** [utf8.DecodeRuneInString]: the first rune of [s] and its width in
    bytes; an invalid or truncated sequence gives [(RuneError, 1)], the
    empty string [(RuneError, 0)]. *)
Definition DecodeRuneInString (s : string) : Z * nat :=
  match s with
  | EmptyString => (RuneError, 0)
  | String c0 r0 =>
    let s0 := byte c0 in
    if (s0 <? RuneSelf)%Z then (s0, 1)
    else
      match first s0 with
      | None => (RuneError, 1)
      | Some (sz, (lo, hi)) =>
        if len s <? sz then (RuneError, 1)
        else
          match r0 with
          | EmptyString => (RuneError, 1)
          | String c1 r1 =>
            let s1 := byte c1 in
            if (s1 <? lo)%Z || (hi <? s1)%Z then (RuneError, 1)
            else if sz <=? 2 then
              (Z.lor (Z.shiftl (Z.land s0 mask2) 6) (Z.land s1 maskx), 2)
            else
              match r1 with
              | EmptyString => (RuneError, 1)
              | String c2 r2 =>
                let s2 := byte c2 in
                if (s2 <? locb)%Z || (hicb <? s2)%Z then (RuneError, 1)
                else if sz <=? 3 then
                  (Z.lor (Z.lor (Z.shiftl (Z.land s0 mask3) 12)
                                (Z.shiftl (Z.land s1 maskx) 6))
                         (Z.land s2 maskx), 3)
                else
                  match r2 with
                  | EmptyString => (RuneError, 1)
                  | String c3 _ =>
                    let s3 := byte c3 in
                    if (s3 <? locb)%Z || (hicb <? s3)%Z then (RuneError, 1)
                    else
                      (Z.lor (Z.lor (Z.lor (Z.shiftl (Z.land s0 mask4) 18)
                                           (Z.shiftl (Z.land s1 maskx) 12))
                                    (Z.shiftl (Z.land s2 maskx) 6))
                             (Z.land s3 maskx), 4)
                  end
              end
          end
      end
  end.

(** The runes a [for _, r := range s] loop visits: decode, advance by the
    width, repeat.  Every step consumes at least one byte, so [len s] steps
    are enough. *)
Fixpoint range_from (fuel : nat) (s : string) : list Z :=
  match fuel, s with
  | S fuel', String _ _ =>
    let '(r, size) := DecodeRuneInString s in
    r :: range_from fuel' (skip size s)
  | _, _ => []
  end.

Definition range (s : string) : list Z := range_from (len s) s.

End utf8.

(** ** strings *)

Module strings.

Fixpoint HasPrefix (s prefix : string) {struct prefix} : bool :=
  match prefix, s with
  | EmptyString, _ => true
  | String p ps, String c cs => Ascii.eqb c p && HasPrefix cs ps
  | String _ _, EmptyString => false
  end.

Definition HasSuffix (s suffix : string) : bool :=
  (len suffix <=? len s) && String.eqb (skip (len s - len suffix) s) suffix.

Fixpoint Contains (s substr : string) : bool :=
  HasPrefix s substr ||
  match s with
  | EmptyString => false
  | String _ r => Contains r substr
  end.

(** The six ASCII white-space bytes of the table [asciiSpace]. *)
Definition asciiSpace (b : Z) : bool :=
  (b =? 0x09)%Z || (b =? 0x0A)%Z || (b =? 0x0B)%Z || (b =? 0x0C)%Z
  || (b =? 0x0D)%Z || (b =? 0x20)%Z.

(** [unicode.IsSpace]: the Latin-1 cases and the rest of White_Space. *)
Definition IsSpace (r : Z) : bool :=
  if (r <=? 0xFF)%Z then
    asciiSpace r || (r =? 0x85)%Z || (r =? 0xA0)%Z
  else
    (r =? 0x1680)%Z || ((0x2000 <=? r)%Z && (r <=? 0x200A)%Z)
    || (r =? 0x2028)%Z || (r =? 0x2029)%Z || (r =? 0x202F)%Z
    || (r =? 0x205F)%Z || (r =? 0x3000)%Z.

(** The width of the white-space rune [s] starts with, 0 when it starts
    with none.  A rune is white space exactly when its bytes are the UTF-8
    encoding of one of the code points of [IsSpace]: one byte for the ASCII
    ones, [C2 85] and [C2 A0], and three bytes for U+1680, U+2000..U+200A,
    U+2028, U+2029, U+202F, U+205F and U+3000. *)
Definition spaceWidth (s : string) : nat :=
  match s with
  | EmptyString => 0
  | String c0 r0 =>
    let b0 := byte c0 in
    if asciiSpace b0 then 1
    else
      match r0 with
      | EmptyString => 0
      | String c1 r1 =>
        let b1 := byte c1 in
        if (b0 =? 0xC2)%Z && ((b1 =? 0x85)%Z || (b1 =? 0xA0)%Z) then 2
        else
          match r1 with
          | EmptyString => 0
          | String c2 _ =>
            let b2 := byte c2 in
            if ((b0 =? 0xE1)%Z && (b1 =? 0x9A)%Z && (b2 =? 0x80)%Z)
               || ((b0 =? 0xE2)%Z && (b1 =? 0x80)%Z
                   && (((0x80 <=? b2)%Z && (b2 <=? 0x8A)%Z)
                       || (b2 =? 0xA8)%Z || (b2 =? 0xA9)%Z || (b2 =? 0xAF)%Z))
               || ((b0 =? 0xE2)%Z && (b1 =? 0x81)%Z && (b2 =? 0x9F)%Z)
               || ((b0 =? 0xE3)%Z && (b1 =? 0x80)%Z && (b2 =? 0x80)%Z)
            then 3 else 0
          end
      end
  end.

(** Leading white-space runes removed, one after the other. *)
Fixpoint TrimLeft (s : string) : string :=
  match s with
  | EmptyString => EmptyString
  | String _ r0 =>
    match spaceWidth s with
    | 0 => s
    | 1 => TrimLeft r0
    | 2 => match r0 with
           | String _ r1 => TrimLeft r1
           | EmptyString => s
           end
    | _ => match r0 with
           | String _ (String _ r2) => TrimLeft r2
           | _ => s
           end
    end
  end.

(** [s] is exactly one white-space rune. *)
Definition isSpaceRune (s : string) : bool :=
  (0 <? spaceWidth s) && (spaceWidth s =? len s).

(** Trailing white-space runes removed.  The last rune of a string is white
    space exactly when the string ends with the encoding of a white-space
    code point, and no such encoding ends another: so, once the tail is
    trimmed, what is left of it either completes a white-space rune with
    the head byte, and all of it goes, or stays behind the head byte. *)
Fixpoint TrimRight (s : string) : string :=
  match s with
  | EmptyString => EmptyString
  | String c r =>
    let r' := TrimRight r in
    if isSpaceRune (String c r') then EmptyString else String c r'
  end.

(** [strings.TrimSpace]: leading and trailing white space, as Unicode
    defines it, removed ([TrimFunc(s, unicode.IsSpace)]; the loops over
    ASCII bytes that the library runs first are a shortcut to the same
    result). *)
Definition TrimSpace (s : string) : string := TrimRight (TrimLeft s).

Definition isASCII (s : string) : bool :=
  forallb (fun c => (byte c <? RuneSelf)%Z) (list_ascii_of_string s).

Definition lowerByte (c : ascii) : ascii :=
  let b := byte c in
  if (0x41 <=? b)%Z && (b <=? 0x5A)%Z then ascii_of_N (Z.to_N (b + 0x20)) else c.

Fixpoint mapBytes (f : ascii -> ascii) (s : string) : string :=
  match s with
  | EmptyString => EmptyString
  | String c r => String (f c) (mapBytes f r)
  end.

(** [strings.ToLower]: a string of ASCII bytes is lowered byte by byte; any
    other string goes through [strings.Map(unicode.ToLower, s)], whose case
    tables are not modelled: [mapLower] stands for it. *)
Definition ToLower (mapLower : string -> string) (s : string) : string :=
  if isASCII s then mapBytes lowerByte s else mapLower s.

End strings.

(** ** The libraries the scraper calls

    What [net/url], [goquery] and the Unicode case tables compute is not
    part of this repository: the scraper is modelled over any library that
    provides them. *)

(** A table row as goquery shows it to the scraper. *)
Record Row := {
  row_th : list string;          (* Text() of each node of s.Find("th") *)
  row_td : list string;          (* Text() of each node of s.Find("td") *)
  row_a : list (option string)   (* Attr("href") of each node of s.Find("a") *)
}.

(** A table: the nodes of [sel.Find("tr")], in document order. *)
Definition Table := list Row.

Record Document := {
  landmark_tables : list Table;  (* doc.Find(".landmark_judgment_summary table") *)
  all_tables : list Table        (* doc.Find("table") *)
}.

Record Library := {
  mapLower : string -> string;                   (* strings.Map(unicode.ToLower, s) *)
  URL : Type;                                    (* *url.URL *)
  Parse : string -> option URL;                  (* url.Parse; None for an error *)
  IsAbs : URL -> bool;
  ResolveReference : URL -> URL -> URL;
  URLString : URL -> string;
  NewDocumentFromReader : string -> option Document  (* None for an error *)
}.

(** ** goquery selections *)

Definition First {A} (sel : list A) : list A := take 1 sel.

(** [sel.Each(f)]: [f] is called on every node with its position. *)
Fixpoint Each_from {A St} (f : nat -> A -> St -> St) (i : nat) (sel : list A)
    (st : St) : St :=
  match sel with
  | [] => st
  | x :: sel' => Each_from f (S i) sel' (f i x st)
  end.

Definition Each {A St} (f : nat -> A -> St -> St) (sel : list A) (st : St) : St :=
  Each_from f 0 sel st.

(** [sel.EachWithBreak(f)]: as [Each], until [f] returns false.  The second
    component counts the nodes [f] was called on. *)
Fixpoint EachWithBreak_from {A St} (f : nat -> A -> St -> St * bool) (i : nat)
    (sel : list A) (st : St) : St * nat :=
  match sel with
  | [] => (st, i)
  | x :: sel' =>
    let '(st', continue) := f i x st in
    if continue then EachWithBreak_from f (S i) sel' st' else (st', S i)
  end.

Definition EachWithBreak {A St} (f : nat -> A -> St -> St * bool) (sel : list A)
    (st : St) : St * nat :=
  EachWithBreak_from f 0 sel st.

(** [cols.Eq(idx).Text()]: the text of the node at [idx], empty when the
    selection has no such node. *)
Definition EqText (cols : list string) (idx : nat) : string :=
  default EmptyString (cols !! idx).

(** ** internal/scraper *)

Record Judgment := {
  DateOfJudgment : string;
  CauseTitleCaseNo : string;
  Subject : string;
  JudgmentSummary : string;
  PDFLink : string
}.

Definition isNumericShort (s : string) : bool :=
  let s := strings.TrimSpace s in
  if String.eqb s EmptyString || (6 <? len s) then false
  else forallb (fun r => negb ((r <? 0x30)%Z || (r >? 0x39)%Z)) (utf8.range s).

Inductive error :=
| errYearRange                              (* year out of supported range 2016..2025 *)
| errGet (e : string)                       (* the error of http.Get *)
| errFetchFailed (status body : string)     (* fetch failed: status - body *)
| errDocument                               (* the error of NewDocumentFromReader *)
| errNoJudgments (pageURL : string)         (* no judgments found on page ... *)
| errMkdirAll
| errCreate
| errEncode.

Record Response {lib : Library} := {
  StatusCode : Z;
  Status : string;
  Body : string;
  RequestURL : URL lib                      (* resp.Request.URL *)
}.
Arguments Response : clear implicits.

(** What an output file holds. *)
Inductive Content :=
| Empty                                     (* created or truncated by os.Create *)
| Complete (judgments : list Judgment)      (* the whole encoding of the records *)
| Incomplete (judgments : list Judgment).   (* a write that failed part-way *)

(** [filepath.Join(dir, name)], kept as its two components. *)
Definition Path : Type := string * string.

(** The network and the file system as one attempt meets them. *)
Record OS {lib : Library} := {
  Get : string -> Response lib + string;    (* http.Get: a response or an error *)
  MkdirAll : string -> bool;                (* true: no error *)
  Create : Path -> bool;
  Write : Path -> bool
}.
Arguments OS : clear implicits.

(** What the attempts have done so far. *)
Record World := {
  fetched : list string;                    (* the URLs http.Get was called with, latest first *)
  dirs : gset string;                       (* the directories os.MkdirAll was called with *)
  files : gmap Path Content
}.

Definition itoa (n : Z) : string := NilZero.string_of_int (Z.to_int n).

Section Scraper.
Context (lib : Library).

Definition ToLower : string -> string := strings.ToLower (mapLower lib).

Definition resolve (base : URL lib) (href : string) : string :=
  let href := strings.TrimSpace href in
  if String.eqb href EmptyString then EmptyString
  else
    match Parse lib href with
    | None => href
    | Some u =>
      if IsAbs lib u then href
      else URLString lib (ResolveReference lib base u)
    end.

(** The table to read: the landmark table first, else the first table. *)
Definition locate (doc : Document) : list Table :=
  let sel := First (landmark_tables doc) in
  if length sel =? 0 then First (all_tables doc) else sel.

(** The callback of the header loop, on the pair (headerMap, hasHeader). *)
Definition headerCell (i : nat) (h : string) (st : gmap string nat * bool)
    : gmap string nat * bool :=
  let '(headerMap, hasHeader) := st in
  let text := strings.TrimSpace h in
  if negb (String.eqb text EmptyString) then
    let lower := ToLower text in
    let headerMap :=
      if strings.Contains lower "date" then <["date" := i]> headerMap
      else if strings.Contains lower "cause" || strings.Contains lower "case"
              || strings.Contains lower "title" then <["cause" := i]> headerMap
      else if strings.Contains lower "subject" then <["subject" := i]> headerMap
      else if strings.Contains lower "summary" then <["summary" := i]> headerMap
      else if strings.Contains lower "view" || strings.Contains lower "pdf"
      then <["pdf" := i]> headerMap
      else headerMap in
    (headerMap, true)
  else (headerMap, hasHeader).

(** The header mapping of a table, from the [th] cells of its first row. *)
Definition header (rows : list Row) : gmap string nat * bool :=
  Each headerCell (concat (row_th <$> First rows)) (∅, false).

Definition readBy (headerMap : gmap string nat) (cols : list string)
    (key : string) (pos : nat) : string :=
  let byPosition :=
    if pos <? length cols then strings.TrimSpace (EqText cols pos)
    else EmptyString in
  match headerMap !! key with
  | Some idx =>
    if idx <? length cols then strings.TrimSpace (EqText cols idx)
    else byPosition
  | None => byPosition
  end.

(** The leading serial column of a row: 1 when there is one, else 0. *)
Definition serialShift (cols : list string) : nat :=
  if 5 <=? length cols then
    let first := strings.TrimSpace (EqText cols 0) in
    if isNumericShort first then 1 else 0
  else 0.

(** The callback of the anchor loop, on the variable [pdf]. *)
Definition anchor (base : URL lib) (i : nat) (a : option string) (pdf : string)
    : string * bool :=
  match a with
  | Some href =>
    let lh := ToLower (strings.TrimSpace href) in
    if strings.HasSuffix lh ".pdf" || strings.Contains lh "view-pdf"
       || strings.Contains lh "/view-pdf/"
    then (resolve base href, false)
    else (pdf, true)
  | None => (pdf, true)
  end.

Definition nonEmpty (s : string) : bool := negb (String.eqb s EmptyString).

(** What a row's cells and anchors give: the four fields read with
    [readBy] and the link the anchor loop leaves in [pdf]. *)
Definition rowJudgment (base : URL lib) (headerMap : gmap string nat) (s : Row)
    : Judgment :=
  let cols := row_td s in
  let shift := serialShift cols in
  let date := readBy headerMap cols "date" (0 + shift) in
  let cause := readBy headerMap cols "cause" (1 + shift) in
  let subject := readBy headerMap cols "subject" (2 + shift) in
  let summary := readBy headerMap cols "summary" (3 + shift) in
  let pdf := fst (EachWithBreak (anchor base) (row_a s) EmptyString) in
  {| DateOfJudgment := date; CauseTitleCaseNo := cause; Subject := subject;
     JudgmentSummary := summary; PDFLink := pdf |}.

(** The callback of the row loop, on the slice [judgments]. *)
Definition tableRow (base : URL lib) (headerMap : gmap string nat)
    (hasHeader : bool) (i : nat) (s : Row) (judgments : list Judgment)
    : list Judgment :=
  if (i =? 0) && hasHeader then judgments
  else
    let cols := row_td s in
    if length cols <? 1 then judgments
    else
      let j := rowJudgment base headerMap s in
      if nonEmpty (DateOfJudgment j) || nonEmpty (CauseTitleCaseNo j)
         || nonEmpty (Subject j) || nonEmpty (JudgmentSummary j)
         || nonEmpty (PDFLink j)
      then judgments ++ [j]
      else judgments.

(** The records of a document, in the order the rows give them. *)
Definition extract (base : URL lib) (doc : Document) : list Judgment :=
  let sel := locate doc in
  if 0 <? length sel then
    let rows := concat sel in
    let '(headerMap, hasHeader) := header rows in
    Each (tableRow base headerMap hasHeader) rows []
  else [].

Definition pageURL (year : Z) : string :=
  "https://www.sci.gov.in/landmark-judgment-summaries/?judgment_year=" +:+ itoa year.

Definition outFile (outDir : string) (year : Z) : Path :=
  (outDir, "sci_judgments_" +:+ itoa year +:+ ".json").

Definition ScrapeYear (os : OS lib) (year : Z) (outDir : string) (w : World)
    : option error * World :=
  if (year <? 2016)%Z || (year >? 2025)%Z then (Some errYearRange, w)
  else
    let w := {| fetched := pageURL year :: fetched w; dirs := dirs w;
                files := files w |} in
    match Get os (pageURL year) with
    | inr e => (Some (errGet e), w)
    | inl resp =>
      if negb (StatusCode resp =? 200)%Z
      then (Some (errFetchFailed (Status resp) (Body resp)), w)
      else
        match NewDocumentFromReader lib (Body resp) with
        | None => (Some errDocument, w)
        | Some doc =>
          let judgments := extract (RequestURL resp) doc in
          if length judgments =? 0 then (Some (errNoJudgments (pageURL year)), w)
          else if negb (MkdirAll os outDir) then (Some errMkdirAll, w)
          else
            let w := {| fetched := fetched w; dirs := {[ outDir ]} ∪ dirs w;
                        files := files w |} in
            let f := outFile outDir year in
            if negb (Create os f) then (Some errCreate, w)
            else
              let w := {| fetched := fetched w; dirs := dirs w;
                          files := <[f := Empty]> (files w) |} in
              if Write os f
              then (None, {| fetched := fetched w; dirs := dirs w;
                             files := <[f := Complete judgments]> (files w) |})
              else (Some errEncode,
                    {| fetched := fetched w; dirs := dirs w;
                       files := <[f := Incomplete judgments]> (files w) |})
        end
    end.

End Scraper.

(** ** cmd/sci-scraper *)

(** Go's [int] addition and multiplication: the result modulo 2^64, read as
    a signed number. *)
Definition wrap (n : Z) : Z := ((n + 2 ^ 63) mod 2 ^ 64 - 2 ^ 63)%Z.

Definition maxInt : Z := (2 ^ 63 - 1)%Z.

(** [time.Second], in nanoseconds. *)
Definition Second : Z := 1000000000.

(** What the program prints, logs and waits for. *)
Inductive Event :=
| Scraping (id year attempt : Z)            (* worker %d: scraping %d (attempt %d) *)
| DoneWorker (id year : Z)                  (* worker %d: done %d *)
| ErrorScraping (id year : Z) (err : error) (* worker %d: error scraping %d: %v *)
| GivingUp (id year attempt : Z)            (* worker %d: giving up on %d after %d attempts *)
| Sleep (d : Z)                             (* time.Sleep(d), d in nanoseconds *)
| Queueing (year : Z)                       (* queueing year %d *)
| ScrapingYear (year : Z) (out : string)    (* Scraping year %d -> output dir %s *)
| ScrapeFailed (year : Z) (err : error)     (* scrape failed for %d: %v *)
| DoneYear (year : Z).                      (* Done year %d *)

Section Scheduler.
Context (lib : Library).

(** What the [attempt]-th call of [ScrapeYear] for [year] meets. *)
Context (net : Z -> Z -> OS lib).

(** The flags [-retries] and [-retry-delay], and the cleaned [-out] directory. *)
Context (retries retryDelay : Z) (out : string).

(** The retry loop of a worker on one job, entered with the counter
    [attempt].  The loop has no bound of its own: [fuel] bounds the number
    of iterations, and [None] says that it was not enough. *)
Fixpoint attempts (fuel : nat) (id year attempt : Z) (w : World) (log : list Event)
    : option (World * list Event) :=
  match fuel with
  | 0 => None
  | S fuel' =>
    let attempt := wrap (attempt + 1) in
    let log := log ++ [Scraping id year attempt] in
    let '(err, w) := ScrapeYear lib (net year attempt) year out w in
    match err with
    | None => Some (w, log ++ [DoneWorker id year])
    | Some e =>
      let log := log ++ [ErrorScraping id year e] in
      if (attempt >? retries)%Z then Some (w, log ++ [GivingUp id year attempt])
      else attempts fuel' id year attempt w (log ++ [Sleep (wrap (retryDelay * Second))])
    end
  end.

(** [worker(id)], on the jobs it receives from the channel, in order. *)
Fixpoint worker (fuel : nat) (id : Z) (jobs : list Z) (w : World) (log : list Event)
    : option (World * list Event) :=
  match jobs with
  | [] => Some (w, log)
  | year :: jobs' =>
    match attempts fuel id year 0 w log with
    | None => None
    | Some (w', log') => worker fuel id jobs' w' log'
    end
  end.

(** The sequential path of [main]: one call of [ScrapeYear] per year. *)
Fixpoint sequential (years : list Z) (w : World) (log : list Event)
    : World * list Event :=
  match years with
  | [] => (w, log)
  | y :: years' =>
    let log := log ++ [ScrapingYear y out] in
    let '(err, w) := ScrapeYear lib (net y 1) y out w in
    match err with
    | Some e => sequential years' w (log ++ [ScrapeFailed y e])
    | None => sequential years' w (log ++ [DoneYear y])
    end
  end.

(** The pool of [main], job by job: the job at place [k] of the queue goes
    to the worker [deliver k], which runs its retry loop on it.  In the
    program the workers run side by side; they share nothing but the queue,
    an attempt meets what [net] says for its year and its number, and every
    year has an output file of its own, so what becomes of a year does not
    depend on how the steps of the workers interleave, and the jobs are
    followed here one after the other. *)
Fixpoint pool (fuel : nat) (deliver : nat -> Z) (k : nat) (years : list Z)
    (w : World) (log : list Event) : option (World * list Event) :=
  match years with
  | [] => Some (w, log)
  | y :: years' =>
    match worker fuel (deliver k) [y] w (log ++ [Queueing y]) with
    | None => None
    | Some (w', log') => pool fuel deliver (S k) years' w' log'
    end
  end.

(** [main], once the flags are read and the years listed. *)
Definition main (concurrency : Z) (fuel : nat) (deliver : nat -> Z)
    (years : list Z) (w : World) (log : list Event) : option (World * list Event) :=
  if (concurrency <=? 1)%Z then Some (sequential years w log)
  else pool fuel deliver 0 years w log.

End Scheduler.

(** The years to scrape, from the flags [-year], [-from] and [-to].  The
    loop [for y := *from; y <= *to; y++] appends [y] to [years]; it has no
    bound of its own: [fuel] bounds the number of times its condition is
    tested, and [None] says that it was not enough. *)
Fixpoint yearsLoop (fuel : nat) (y to : Z) (years : list Z) : option (list Z) :=
  match fuel with
  | 0 => None
  | S fuel' =>
    if (y <=? to)%Z then yearsLoop fuel' (wrap (y + 1)) to (years ++ [y])
    else Some years
  end.

Definition years (fuel : nat) (year from to : Z) : option (list Z) :=
  if negb (year =? 0)%Z then Some ([] ++ [year]) else yearsLoop fuel from to [].

Definition reportsDone (year : Z) (e : Event) : bool :=
  match e with
  | DoneWorker _ y | DoneYear y => (y =? year)%Z
  | _ => false
  end.

Definition reportedDone (year : Z) (log : list Event) : bool :=
  existsb (reportsDone year) log.

(** The outcome of a run for one year: whether the year was reported done,
    and what its output file holds. *)
Definition outcome (out : string) (year : Z) (r : World * list Event)
    : bool * option Content :=
  (reportedDone year r.2, files r.1 !! outFile out year).

(** The events that time a job: its attempts and its sleeps. *)
Definition timing (e : Event) : bool :=
  match e with
  | Scraping _ _ _ | Sleep _ => true
  | _ => false
  end.

Definition isScraping (e : Event) : bool :=
  match e with
  | Scraping _ _ _ => true
  | _ => false
  end.

(** ** A small library to run the model on

    A stand-in for the libraries, exact on the plain inputs of the examples
    below: URLs are kept as text, a URL is absolute when it starts with a
    scheme and a colon, a reference that starts with a slash replaces the
    path of the base, any other replaces what follows its last slash, and
    the parsed page is looked up in a table. *)

Module demo.

Fixpoint schemeEnd (i : nat) (s : string) : option nat :=
  match s with
  | EmptyString => None
  | String c r =>
    let b := byte c in
    if ((0x61 <=? b)%Z && (b <=? 0x7A)%Z) || ((0x41 <=? b)%Z && (b <=? 0x5A)%Z)
    then schemeEnd (S i) r
    else if ((0x30 <=? b)%Z && (b <=? 0x39)%Z) || (b =? 0x2B)%Z || (b =? 0x2D)%Z
            || (b =? 0x2E)%Z
    then (if i =? 0 then None else schemeEnd (S i) r)
    else if (b =? 0x3A)%Z then (if i =? 0 then None else Some i)
    else None
  end.

Fixpoint untilSlash (s : string) : string :=
  match s with
  | EmptyString => EmptyString
  | String c r => if Ascii.eqb c "/" then EmptyString else String c (untilSlash r)
  end.

(** Scheme, colon, two slashes and authority of an absolute URL. *)
Definition origin (u : string) : string :=
  match schemeEnd 0 u with
  | Some i =>
    String.substring 0 (i + 3) u +:+ untilSlash (skip (i + 3) u)
  | None => EmptyString
  end.

Fixpoint untilQuery (s : string) : string :=
  match s with
  | EmptyString => EmptyString
  | String c r => if Ascii.eqb c "?" then EmptyString else String c (untilQuery r)
  end.

(** [s] up to its last slash. *)
Fixpoint dirOf (s : string) : string :=
  match s with
  | EmptyString => EmptyString
  | String c r =>
    let d := dirOf r in
    if Ascii.eqb c "/" || negb (String.eqb d EmptyString) then String c d
    else EmptyString
  end.

Definition resolveReference (base ref : string) : string :=
  if strings.HasPrefix ref "/" then origin base +:+ ref
  else dirOf (untilQuery base) +:+ ref.

Definition row (cells : list string) (links : list (option string)) : Row :=
  {| row_th := []; row_td := cells; row_a := links |}.

Definition headerRow (cells : list string) : Row :=
  {| row_th := cells; row_td := []; row_a := [] |}.

(** The table of the scenario: a header row with a serial column, and one
    row of data whose last cell holds the link. *)
Definition scenario : Document :=
  {| landmark_tables :=
       [ [ headerRow ["S.No"; "Date of Judgment"; "Cause Title"; "Subject";
                      "Summary"; "View"];
           row ["1"; "01-01-2016"; "X vs Y"; "Constitutional"; "Summary text"; ""]
               [Some "view-pdf/123"] ] ];
     all_tables := [] |}.

(** A page whose table has a header row and nothing else. *)
Definition emptyTable : Document :=
  {| landmark_tables := [ [ headerRow ["Date"; "Cause Title"] ] ];
     all_tables := [] |}.

Definition pages (body : string) : option Document :=
  if String.eqb body "scenario" then Some scenario
  else if String.eqb body "empty table" then Some emptyTable
  else None.

Definition lib : Library :=
  {| mapLower := fun s => s;
     URL := string;
     Parse := fun s => Some s;
     IsAbs := fun u => match schemeEnd 0 u with Some _ => true | None => false end;
     ResolveReference := resolveReference;
     URLString := fun u => u;
     NewDocumentFromReader := pages |}.

Definition base : string :=
  "https://www.sci.gov.in/landmark-judgment-summaries/?judgment_year=2016".

Definition page (body : string) : Response lib :=
  @Build_Response lib 200 "200 OK" body base.

(** A machine on which everything succeeds and every year shows [body]. *)
Definition serving (body : string) : OS lib :=
  {| Get := fun _ => inl (page body); MkdirAll := fun _ => true;
     Create := fun _ => true; Write := fun _ => true |}.

(** The network is down. *)
Definition offline : OS lib :=
  {| Get := fun _ => inr "connection refused"; MkdirAll := fun _ => true;
     Create := fun _ => true; Write := fun _ => true |}.

(** The disk fills up while the records are written. *)
Definition diskFull (body : string) : OS lib :=
  {| Get := fun _ => inl (page body); MkdirAll := fun _ => true;
     Create := fun _ => true; Write := fun _ => false |}.

Definition start : World := {| fetched := []; dirs := ∅; files := ∅ |}.

End demo.

(** * The properties, in the terms of the model *)

(** ** Digits *)

Definition bytes (s : string) : list ascii := list_ascii_of_string s.

(** An ASCII digit, as a byte and as a rune. *)
Definition digitByte (c : ascii) : bool := (0x30 <=? byte c)%Z && (byte c <=? 0x39)%Z.
Definition digitRune (r : Z) : bool := negb ((r <? 0x30)%Z || (r >? 0x39)%Z).

(** ** Fields and roles *)

(** The roles read by position, with the position and the field of each. *)
Definition positional : list (string * nat * (Judgment -> string)) :=
  [ ("date", 0, DateOfJudgment); ("cause", 1, CauseTitleCaseNo);
    ("subject", 2, Subject); ("summary", 3, JudgmentSummary) ].

(** One of the five fields of the record is not empty. *)
Definition someField (j : Judgment) : Prop :=
  DateOfJudgment j <> EmptyString \/ CauseTitleCaseNo j <> EmptyString
  \/ Subject j <> EmptyString \/ JudgmentSummary j <> EmptyString
  \/ PDFLink j <> EmptyString.

(** The rule set of the header mapper, in the order it is tried: the words
    looked for and the role they give. *)
Definition rules : list (list string * string) :=
  [ (["date"], "date");
    (["cause"; "case"; "title"], "cause");
    (["subject"], "subject");
    (["summary"], "summary");
    (["view"; "pdf"], "pdf") ].

(** The role of the first rule one of whose words [lower] contains. *)
Definition firstRule (lower : string) : option string :=
  snd <$> List.find (fun rule => existsb (strings.Contains lower) rule.1) rules.

(** The role a header cell is given: that of the first rule its trimmed,
    lower-cased text matches. *)
Definition cellRole (lib : Library) (h : string) : option string :=
  firstRule (ToLower lib (strings.TrimSpace h)).

(** The header map once the cell at [i] has been given [role]. *)
Definition assign (role : option string) (i : nat) (headerMap : gmap string nat)
    : gmap string nat :=
  match role with
  | Some key => <[key := i]> headerMap
  | None => headerMap
  end.

(** ** Links *)

(** An href that names a judgment PDF: trimmed and lower-cased, it ends
    with ".pdf" or contains "view-pdf". *)
Definition isPDFHref (lib : Library) (href : string) : bool :=
  let lh := ToLower lib (strings.TrimSpace href) in
  strings.HasSuffix lh ".pdf" || strings.Contains lh "view-pdf".

Definition isPDFAnchor (lib : Library) (a : option string) : bool :=
  match a with
  | Some href => isPDFHref lib href
  | None => false
  end.

(** ** Attempts *)

(** An attempt that writes all or nothing: the year's file holds the whole
    of a non-empty set of records, or no file has changed. *)
Definition allOrNothing (lib : Library) (os : OS lib) (year : Z) (outDir : string)
    (w : World) : Prop :=
  let w' := (ScrapeYear lib os year outDir w).2 in
  (exists judgments, judgments <> []
     /\ files w' = <[outFile outDir year := Complete judgments]> (files w))
  \/ files w' = files w.

(** The job for [year] fails on each of its [retries + 1] attempts,
    whatever the earlier ones left behind. *)
Definition alwaysFails (lib : Library) (net : Z -> Z -> OS lib) (retries : Z)
    (out : string) (year : Z) : Prop :=
  forall k w, (1 <= k <= retries + 1)%Z ->
    (ScrapeYear lib (net year k) year out w).1 <> None.

(** The attempts and the sleeps of a job that fails [retries + 1] times:
    a sleep of [d] between every two consecutive attempts. *)
Definition retrySchedule (id year retries d : Z) : list Event :=
  flat_map (fun k => [Scraping id year k; Sleep d]) (seqZ 1 retries)
  ++ [Scraping id year (retries + 1)].

(** ** Rows and records *)

(** A record that the row loop keeps: one of its five fields is not empty. *)
Definition kept (j : Judgment) : bool :=
  nonEmpty (DateOfJudgment j) || nonEmpty (CauseTitleCaseNo j) || nonEmpty (Subject j)
  || nonEmpty (JudgmentSummary j) || nonEmpty (PDFLink j).

(** A row with a [td] cell. *)
Definition hasCells (s : Row) : bool := 1 <=? length (row_td s).

(** The rows read as data: all but row 0 under a header, else all. *)
Definition dataRows (rows : list Row) (hasHeader : bool) : list Row :=
  if hasHeader then tail rows else rows.

(** A text with no white space around it. *)
Definition isTrimmed (s : string) : Prop := strings.TrimSpace s = s.

(** A row and a document with the white space around every cell text and
    every href removed. *)
Definition trimRow (s : Row) : Row :=
  {| row_th := strings.TrimSpace <$> row_th s;
     row_td := strings.TrimSpace <$> row_td s;
     row_a := option_map strings.TrimSpace <$> row_a s |}.

Definition trimDocument (doc : Document) : Document :=
  {| landmark_tables := fmap (M := list) trimRow <$> landmark_tables doc;
     all_tables := fmap (M := list) trimRow <$> all_tables doc |}.

(** ** Runs *)

(** A year that [ScrapeYear] accepts. *)
Definition supported (year : Z) : bool := (2016 <=? year)%Z && (year <=? 2025)%Z.

Definition isScrapingYear (e : Event) : bool :=
  match e with
  | ScrapingYear _ _ => true
  | _ => false
  end.

Definition isQueueing (e : Event) : bool :=
  match e with
  | Queueing _ => true
  | _ => false
  end.

(** The events that end a job: done, or given up. *)
Definition endsJob (e : Event) : bool :=
  match e with
  | DoneWorker _ _ | GivingUp _ _ _ => true
  | _ => false
  end.

(** What a job does to the disk: it leaves [c] in its file, or leaves the
    files alone; it makes the directory, or not. *)
Definition leave (p : Path) (c : option Content) (fs : gmap Path Content)
    : gmap Path Content :=
  match c with
  | Some c => <[p := c]> fs
  | None => fs
  end.

Definition mkdir (made : bool) (dir : string) (ds : gset string) : gset string :=
  if made then {[ dir ]} ∪ ds else ds.

(** The verdict that the sequential path logs for a year: failed with the
    error of the attempt, or done. *)
Definition verdict (lib : Library) (os : OS lib) (year : Z) (out : string) (w : World)
    : Event :=
  match (ScrapeYear lib os year out w).1 with
  | Some e => ScrapeFailed year e
  | None => DoneYear year
  end.




(** Every attempt at a year that the retry count allows meets what the
    first one meets: it does to every world what the first would do. *)
Definition steady (lib : Library) (net : Z -> Z -> OS lib) (retries : Z) (out : string)
    : Prop :=
  forall year k w, (1 <= k <= retries + 1)%Z ->
    ScrapeYear lib (net year k) year out w = ScrapeYear lib (net year 1%Z) year out w.

(** The worlds agree on the directories made and on the files written. *)
Definition sameDisk (w1 w2 : World) : Prop :=
  dirs w1 = dirs w2 /\ files w1 = files w2.

(** ** Inputs of the examples *)

(** The network fails on the first attempt at every year and serves the
    page of the scenario from the second on. *)
Definition flaky (year attempt : Z) : OS demo.lib :=
  if (attempt =? 1)%Z then demo.offline else demo.serving "scenario".

(** The record of the scenario. *)
Definition scenarioRecord : Judgment :=
  {| DateOfJudgment := "01-01-2016"; CauseTitleCaseNo := "X vs Y";
     Subject := "Constitutional"; JudgmentSummary := "Summary text";
     PDFLink := "https://www.sci.gov.in/landmark-judgment-summaries/view-pdf/123" |}.

(** * Facts about the library models *)

Module utf8_facts.
Import utf8.

Lemma byte_range c : (0 <= byte c < 256)%Z.
Proof. unfold byte. pose proof (N_ascii_bounded c). lia. Qed.

(** Below [2^n] no bit of [Z.shiftl x n] is set, so or-ing is adding. *)
Lemma lor_shiftl_low x y n :
  (0 <= n)%Z -> (0 <= y < 2 ^ n)%Z -> Z.lor (Z.shiftl x n) y = (x * 2 ^ n + y)%Z.
Proof.
  intros Hn Hy.
  assert (Z.land (Z.shiftl x n) y = 0%Z) as Hdisj.
  { apply Z.bits_inj'. intros k Hk. rewrite Z.land_spec, Z.bits_0.
    destruct (Z.ltb_spec k n) as [Hlt|Hge].
    - by rewrite Z.shiftl_spec_low.
    - rewrite andb_false_iff. right.
      destruct (Z.eq_dec y 0%Z) as [->|Hy0]; [apply Z.bits_0|].
      apply Z.bits_above_log2; [lia|].
      apply Z.log2_lt_pow2; [lia|].
      assert (2 ^ n <= 2 ^ k)%Z by (apply Z.pow_le_mono_r; lia). lia. }
  rewrite <- Z.lxor_lor, <- Z.add_nocarry_lxor by done.
  by rewrite Z.shiftl_mul_pow2.
Qed.

Lemma land_maskx b : Z.land b maskx = (b mod 64)%Z.
Proof. change maskx with (Z.ones 6). by rewrite Z.land_ones. Qed.

Lemma land_mask2 b : Z.land b mask2 = (b mod 32)%Z.
Proof. change mask2 with (Z.ones 5). by rewrite Z.land_ones. Qed.

Lemma land_mask3 b : Z.land b mask3 = (b mod 16)%Z.
Proof. change mask3 with (Z.ones 4). by rewrite Z.land_ones. Qed.

Lemma land_mask4 b : Z.land b mask4 = (b mod 8)%Z.
Proof. change mask4 with (Z.ones 3). by rewrite Z.land_ones. Qed.

Lemma rune2 a b : Z.lor (Z.shiftl a 6) (b mod 64) = (a * 64 + b mod 64)%Z.
Proof. rewrite lor_shiftl_low; [done|lia|]. pose proof (Z.mod_pos_bound b 64). lia. Qed.

Lemma rune3 a b c :
  Z.lor (Z.lor (Z.shiftl a 12) (Z.shiftl (b mod 64) 6)) (c mod 64)
  = (a * 4096 + (b mod 64) * 64 + c mod 64)%Z.
Proof.
  replace (Z.shiftl a 12) with (Z.shiftl (Z.shiftl a 6) 6)
    by (rewrite Z.shiftl_shiftl; [done|lia]).
  rewrite <- Z.shiftl_lor, rune2, rune2. lia.
Qed.

Lemma rune4 a b c d :
  Z.lor (Z.lor (Z.lor (Z.shiftl a 18) (Z.shiftl (b mod 64) 12))
               (Z.shiftl (c mod 64) 6)) (d mod 64)
  = (a * 262144 + (b mod 64) * 4096 + (c mod 64) * 64 + d mod 64)%Z.
Proof.
  replace (Z.shiftl a 18) with (Z.shiftl (Z.shiftl a 12) 6)
    by (rewrite Z.shiftl_shiftl; [done|lia]).
  replace (Z.shiftl (b mod 64) 12) with (Z.shiftl (Z.shiftl (b mod 64) 6) 6)
    by (rewrite Z.shiftl_shiftl; [done|lia]).
  rewrite <- !Z.shiftl_lor.
  replace (Z.shiftl a 12) with (Z.shiftl (Z.shiftl a 6) 6)
    by (rewrite Z.shiftl_shiftl; [done|lia]).
  rewrite <- !Z.shiftl_lor, !rune2. lia.
Qed.

Lemma Decode_ascii c r :
  (byte c < RuneSelf)%Z -> DecodeRuneInString (String c r) = (byte c, 1).
Proof.
  intros H. cbn [DecodeRuneInString].
  by destruct (Z.ltb_spec (byte c) RuneSelf); [|lia].
Qed.

(** A byte that is not ASCII starts a rune that is not ASCII either: a
    decoded code point of two bytes or more, or [RuneError]. *)
Lemma Decode_not_ascii c r :
  (RuneSelf <= byte c)%Z ->
  (RuneSelf <= (DecodeRuneInString (String c r)).1)%Z
  /\ 1 <= (DecodeRuneInString (String c r)).2.
Proof.
  intros H. pose proof (byte_range c) as Hc.
  cbn [DecodeRuneInString].
  destruct (Z.ltb_spec (byte c) RuneSelf); [lia|].
  unfold RuneSelf, RuneError in *.
  assert (forall (x : Z * nat), x = (0xFFFD%Z, 1) -> (128 <= x.1)%Z /\ 1 <= x.2) as Herr
    by (intros ? ->; cbn; lia).
  unfold first.
  repeat match goal with
  | |- context [if ?b then _ else _] =>
      match b with
      | context [byte c] => destruct b eqn:?
      end
  end; try (by apply Herr).
  all: destruct (_ <? _); try (by apply Herr).
  all: destruct r as [|c1 r1]; try (by apply Herr).
  all: pose proof (byte_range c1) as Hc1.
  all: destruct (_ || _) eqn:E1; try (by apply Herr).
  all: apply orb_false_iff in E1 as [?%Z.ltb_ge ?%Z.ltb_ge].
  all: cbn [Nat.leb].
  all: try (rewrite land_mask2, land_maskx, rune2; cbn [fst snd]; split; [|lia]).
  all: try (destruct r1 as [|c2 r2]; try (by apply Herr);
            pose proof (byte_range c2) as Hc2;
            destruct (_ || _) eqn:E2; try (by apply Herr);
            apply orb_false_iff in E2 as [?%Z.ltb_ge ?%Z.ltb_ge]; unfold locb, hicb in * ).
  all: try (rewrite land_mask3, !land_maskx, rune3; cbn [fst snd]; split; [|lia]).
  all: try (destruct r2 as [|c3 r3]; try (by apply Herr);
            pose proof (byte_range c3) as Hc3;
            destruct (_ || _) eqn:E3; try (by apply Herr);
            apply orb_false_iff in E3 as [?%Z.ltb_ge ?%Z.ltb_ge]; unfold locb, hicb in * ).
  all: try (rewrite land_mask4, !land_maskx, rune4; cbn [fst snd]; split; [|lia]).
  all: repeat match goal with
       | H : (_ && _) = true |- _ => apply andb_true_iff in H as [? ?]
       | H : (_ <=? _)%Z = true |- _ => apply Z.leb_le in H
       | H : (_ =? _)%Z = true |- _ => apply Z.eqb_eq in H
       end; Z.div_mod_to_equations; lia.
Qed.

(** What [DecodeRuneInString] returns on a string that starts with a byte
    of 0x80 or more: an error, or the code point of a sequence of two,
    three or four bytes. *)
Lemma Decode_inv c0 r0 :
  (RuneSelf <= byte c0)%Z ->
  DecodeRuneInString (String c0 r0) = (RuneError, 1)
  \/ (exists c1 r1, r0 = String c1 r1
        /\ (0xC2 <= byte c0 <= 0xDF)%Z /\ (0x80 <= byte c1 <= 0xBF)%Z
        /\ DecodeRuneInString (String c0 r0)
           = (((byte c0 - 0xC0) * 64 + (byte c1 - 0x80))%Z, 2))
  \/ (exists c1 c2 r2, r0 = String c1 (String c2 r2)
        /\ (0xE0 <= byte c0 <= 0xEF)%Z /\ (0x80 <= byte c1 <= 0xBF)%Z
        /\ (0x80 <= byte c2 <= 0xBF)%Z /\ (byte c0 = 0xE0 -> 0xA0 <= byte c1)%Z
        /\ DecodeRuneInString (String c0 r0)
           = (((byte c0 - 0xE0) * 4096 + (byte c1 - 0x80) * 64 + (byte c2 - 0x80))%Z, 3))
  \/ (exists r, (0x10000 <= r)%Z /\ DecodeRuneInString (String c0 r0) = (r, 4)).
Proof.
  intros H. pose proof (byte_range c0) as Hc.
  cbn [DecodeRuneInString].
  destruct (Z.ltb_spec (byte c0) RuneSelf); [lia|].
  unfold RuneSelf, RuneError, first in *.
  repeat match goal with
  | |- context [if ?b then _ else _] =>
      match b with
      | context [byte c0] => destruct b eqn:?
      end
  end; try (by left).
  all: destruct (_ <? _); try (by left).
  all: destruct r0 as [|c1 r1]; try (by left).
  all: pose proof (byte_range c1) as Hc1.
  all: destruct (_ || _) eqn:E1; try (by left).
  all: apply orb_false_iff in E1 as [?%Z.ltb_ge ?%Z.ltb_ge].
  all: cbn [Nat.leb].
  all: try (right; left; exists c1, r1; rewrite land_mask2, land_maskx, rune2;
            split_and!; [done|lia..|f_equal; Z.div_mod_to_equations; lia]).
  all: destruct r1 as [|c2 r2]; try (by left).
  all: pose proof (byte_range c2) as Hc2.
  all: destruct (_ || _) eqn:E2; try (by left).
  all: apply orb_false_iff in E2 as [?%Z.ltb_ge ?%Z.ltb_ge]; unfold locb, hicb in *.
  all: try (right; right; left; exists c1, c2, r2;
            rewrite land_mask3, !land_maskx, rune3;
            split_and!; [done|lia..|f_equal; Z.div_mod_to_equations; lia]).
  all: destruct r2 as [|c3 r3]; try (by left).
  all: pose proof (byte_range c3) as Hc3.
  all: destruct (_ || _) eqn:E3; try (by left).
  all: apply orb_false_iff in E3 as [?%Z.ltb_ge ?%Z.ltb_ge]; unfold locb, hicb in *.
  all: right; right; right; eexists; split; [|reflexivity].
  all: rewrite land_mask4, !land_maskx, rune4; Z.div_mod_to_equations; lia.
Qed.

Lemma Decode_two c0 c1 r :
  (0xC2 <= byte c0 <= 0xDF)%Z -> (0x80 <= byte c1 <= 0xBF)%Z ->
  DecodeRuneInString (String c0 (String c1 r))
  = (((byte c0 - 0xC0) * 64 + (byte c1 - 0x80))%Z, 2).
Proof.
  intros H0 H1. cbn [DecodeRuneInString]. unfold RuneSelf, first.
  destruct (Z.ltb_spec (byte c0) 128); [lia|].
  assert ((194 <=? byte c0)%Z && (byte c0 <=? 223)%Z = true) as -> by lia.
  cbn [String.length Nat.ltb Nat.leb].
  assert ((byte c1 <? 128)%Z || (191 <? byte c1)%Z = false) as -> by lia.
  rewrite land_mask2, land_maskx, rune2. f_equal. Z.div_mod_to_equations. lia.
Qed.

Lemma Decode_three c0 c1 c2 r :
  (0xE1 <= byte c0 <= 0xEC)%Z -> (0x80 <= byte c1 <= 0xBF)%Z ->
  (0x80 <= byte c2 <= 0xBF)%Z ->
  DecodeRuneInString (String c0 (String c1 (String c2 r)))
  = (((byte c0 - 0xE0) * 4096 + (byte c1 - 0x80) * 64 + (byte c2 - 0x80))%Z, 3).
Proof.
  intros H0 H1 H2. cbn [DecodeRuneInString]. unfold RuneSelf, first, locb, hicb.
  destruct (Z.ltb_spec (byte c0) 128); [lia|].
  assert ((194 <=? byte c0)%Z && (byte c0 <=? 223)%Z = false) as -> by lia.
  assert ((byte c0 =? 224)%Z = false) as -> by lia.
  assert ((225 <=? byte c0)%Z && (byte c0 <=? 236)%Z = true) as -> by lia.
  cbn [String.length Nat.ltb Nat.leb].
  assert ((byte c1 <? 128)%Z || (191 <? byte c1)%Z = false) as -> by lia.
  assert ((byte c2 <? 128)%Z || (191 <? byte c2)%Z = false) as -> by lia.
  rewrite land_mask3, !land_maskx, rune3. f_equal. Z.div_mod_to_equations. lia.
Qed.

End utf8_facts.

Module strings_facts.
Import strings.

Lemma app_cons c s v : String c s +:+ v = String c (s +:+ v).
Proof. reflexivity. Qed.

Lemma app_nil v : EmptyString +:+ v = v.
Proof. reflexivity. Qed.

Lemma spaceWidth_app s v :
  0 < spaceWidth s -> spaceWidth (s +:+ v) = spaceWidth s.
Proof.
  destruct s as [|c0 [|c1 [|c2 r]]]; rewrite ?app_cons, ?app_nil;
    cbn [spaceWidth]; try lia.
  all: repeat match goal with |- context [if ?b then _ else _] => destruct b end;
    try done; try lia.
Qed.

Lemma TrimLeft_unfold c r :
  TrimLeft (String c r) =
  match spaceWidth (String c r) with
  | 0 => String c r
  | 1 => TrimLeft r
  | 2 => match r with String _ r1 => TrimLeft r1 | EmptyString => String c r end
  | _ => match r with String _ (String _ r2) => TrimLeft r2 | _ => String c r end
  end.
Proof. reflexivity. Qed.

Lemma TrimLeft_fixed s : spaceWidth s = 0 -> TrimLeft s = s.
Proof. destruct s as [|c r]; [done|]. intros H. by rewrite TrimLeft_unfold, H. Qed.

Lemma spaceWidth_le s : spaceWidth s <= len s.
Proof.
  destruct s as [|c0 [|c1 [|c2 r]]]; cbn [spaceWidth String.length]; try lia;
    repeat match goal with |- context [if ?b then _ else _] => destruct b end; lia.
Qed.

Lemma spaceWidth_TrimLeft s : spaceWidth (TrimLeft s) = 0.
Proof.
  remember (len s) as n eqn:Hn. revert s Hn.
  induction n as [n IH] using lt_wf_ind. intros s ->.
  destruct s as [|c r]; [done|].
  rewrite TrimLeft_unfold.
  pose proof (spaceWidth_le (String c r)) as Hle.
  destruct (spaceWidth (String c r)) as [|[|[|k]]] eqn:Hw.
  - done.
  - apply (IH (len r)); cbn; lia.
  - destruct r as [|c1 r1]; [cbn in Hle; lia|]. apply (IH (len r1)); cbn; lia.
  - destruct r as [|c1 [|c2 r2]]; [cbn in Hle; lia..|]. apply (IH (len r2)); cbn; lia.
Qed.

Lemma TrimRight_prefix s : exists v, s = TrimRight s +:+ v.
Proof.
  induction s as [|c r [v IH]]; [by exists EmptyString|].
  cbn [TrimRight]. destruct (isSpaceRune _).
  - by exists (String c r).
  - exists v. by rewrite app_cons, <- IH.
Qed.

Lemma TrimRight_idem s : TrimRight (TrimRight s) = TrimRight s.
Proof.
  induction s as [|c r IH]; [done|].
  cbn [TrimRight]. destruct (isSpaceRune (String c (TrimRight r))) eqn:E; [done|].
  cbn [TrimRight]. by rewrite IH, E.
Qed.

Lemma TrimSpace_idem s : TrimSpace (TrimSpace s) = TrimSpace s.
Proof.
  unfold TrimSpace.
  assert (spaceWidth (TrimRight (TrimLeft s)) = 0) as H0.
  { destruct (TrimRight_prefix (TrimLeft s)) as [v Hv].
    pose proof (spaceWidth_TrimLeft s) as Hl. rewrite Hv in Hl.
    destruct (spaceWidth (TrimRight (TrimLeft s))) eqn:E; [done|].
    rewrite spaceWidth_app in Hl; lia. }
  rewrite (TrimLeft_fixed _ H0). apply TrimRight_idem.
Qed.

Lemma HasPrefix_app s a b : HasPrefix s (a +:+ b) = true -> HasPrefix s a = true.
Proof.
  revert s. induction a as [|c a IH]; intros s; [done|].
  rewrite app_cons. destruct s as [|d s]; cbn [HasPrefix]; [done|].
  rewrite !andb_true_iff. intros [? ?]. eauto.
Qed.

Lemma Contains_cons c s sub : Contains s sub = true -> Contains (String c s) sub = true.
Proof. intros H. cbn [Contains]. rewrite H. apply orb_true_r. Qed.

Lemma HasPrefix_Contains s sub : HasPrefix s sub = true -> Contains s sub = true.
Proof. intros H. destruct s; cbn [Contains]; by rewrite H. Qed.

(** A string that contains [String c sub] contains [sub]. *)
Lemma Contains_tail s c sub :
  Contains s (String c sub) = true -> Contains s sub = true.
Proof.
  induction s as [|d s IH]; cbn [Contains HasPrefix]; [done|].
  rewrite orb_true_iff, andb_true_iff. intros [[_ H]|H].
  - by apply Contains_cons, HasPrefix_Contains.
  - apply Contains_cons. auto.
Qed.

(** A string that contains [a +:+ b] contains [a]. *)
Lemma Contains_init s a b : Contains s (a +:+ b) = true -> Contains s a = true.
Proof.
  induction s as [|d s IH]; cbn [Contains]; rewrite !orb_true_iff.
  - intros [H|H]; [|done]. left. eauto using HasPrefix_app.
  - intros [H|H]; [left; eauto using HasPrefix_app | right; auto].
Qed.


(** [spaceWidth] reads off the bytes what [utf8.DecodeRuneInString] and
    [IsSpace] say of the first rune: its width when it is white space. *)
Lemma spaceWidth_Decode s :
  spaceWidth s
  = if IsSpace (utf8.DecodeRuneInString s).1 then (utf8.DecodeRuneInString s).2 else 0.
Proof.
  destruct s as [|c0 r0]; [reflexivity|].
  pose proof (utf8_facts.byte_range c0) as Hc0.
  destruct (Z.ltb_spec (byte c0) RuneSelf) as [Hlt|Hge].
  { rewrite utf8_facts.Decode_ascii by done. cbn [fst snd]. unfold RuneSelf in Hlt.
    unfold spaceWidth, IsSpace.
    assert ((byte c0 <=? 255)%Z = true) as -> by lia.
    assert ((byte c0 =? 133)%Z = false) as -> by lia.
    assert ((byte c0 =? 160)%Z = false) as -> by lia.
    rewrite !orb_false_r. destruct (asciiSpace (byte c0)); [done|].
    destruct r0 as [|c1 [|c2 r2]]; [done|..].
    all: assert ((byte c0 =? 194)%Z = false) as -> by lia; cbn [andb].
    1: done.
    assert ((byte c0 =? 225)%Z = false) as -> by lia.
    assert ((byte c0 =? 226)%Z = false) as -> by lia.
    by assert ((byte c0 =? 227)%Z = false) as -> by lia. }
  unfold RuneSelf in Hge. unfold spaceWidth.
  assert (asciiSpace (byte c0) = false) as -> by (unfold asciiSpace; lia).
  assert (IsSpace RuneError = false) as Herr by reflexivity.
  destruct (utf8_facts.Decode_inv c0 r0 Hge)
    as [E|[(c1 & r1 & -> & H0 & H1 & E)
          |[(c1 & c2 & r2 & -> & H0 & H1 & H2 & HE0 & E)|(r & Hr & E)]]].
  - (* the decoder reports an error: no white-space sequence starts here *)
    rewrite E. cbn [fst snd]. rewrite Herr.
    destruct r0 as [|c1 r1]; [done|].
    pose proof (utf8_facts.byte_range c1) as Hc1.
    destruct ((byte c0 =? 194)%Z && _) eqn:P2.
    { rewrite utf8_facts.Decode_two in E by lia. discriminate. }
    destruct r1 as [|c2 r2]; [done|].
    pose proof (utf8_facts.byte_range c2) as Hc2.
    match goal with |- (if ?b then _ else _) = _ => destruct b eqn:P3 end; [|done].
    rewrite utf8_facts.Decode_three in E by lia. discriminate.
  - rewrite E. cbn [fst snd]. unfold IsSpace, asciiSpace.
    destruct ((byte c0 =? 194)%Z && _) eqn:P2.
    + assert (byte c0 = 194%Z) as -> by lia.
      repeat case_match; try done; lia.
    + destruct r1 as [|c2 r2].
      * repeat case_match; try done; lia.
      * pose proof (utf8_facts.byte_range c2).
        repeat case_match; try done; lia.
  - rewrite E. cbn [fst snd]. unfold IsSpace, asciiSpace.
    assert ((byte c0 =? 194)%Z = false) as -> by lia. cbn [andb].
    pose proof (utf8_facts.byte_range c1). pose proof (utf8_facts.byte_range c2).
    repeat case_match; try done; lia.
  - rewrite E. cbn [fst snd]. unfold IsSpace.
    assert ((r <=? 255)%Z = false) as -> by lia.
    assert (spaceWidth (String c0 r0) = 0) as Hw.
    { pose proof (spaceWidth_le (String c0 r0)).
      (* a white-space rune of three bytes at most would decode as such *)
      unfold spaceWidth.
      assert (asciiSpace (byte c0) = false) as -> by (unfold asciiSpace; lia).
      destruct r0 as [|c1 r1]; [done|]. pose proof (utf8_facts.byte_range c1).
      destruct ((byte c0 =? 194)%Z && _) eqn:P2.
      { rewrite utf8_facts.Decode_two in E by lia. discriminate. }
      destruct r1 as [|c2 r2]; [done|]. pose proof (utf8_facts.byte_range c2).
      match goal with |- (if ?b then _ else _) = _ => destruct b eqn:P3 end; [|done].
      rewrite utf8_facts.Decode_three in E by lia. discriminate. }
    unfold spaceWidth in Hw.
    assert (asciiSpace (byte c0) = false) as Ha by (unfold asciiSpace; lia).
    rewrite Ha in Hw. rewrite Hw. repeat case_match; try done; lia.
Qed.

Lemma spaceWidth_le_3 s : spaceWidth s <= 3.
Proof.
  destruct s as [|c0 [|c1 [|c2 r]]]; cbn [spaceWidth]; try lia;
    repeat match goal with |- context [if ?b then _ else _] => destruct b end; lia.
Qed.

(** [TrimLeft] is the loop of [strings.TrimLeftFunc(s, unicode.IsSpace)]:
    decode a rune; when it is white space go on after it, else stop. *)
Lemma TrimLeft_Decode s :
  TrimLeft s
  = if IsSpace (utf8.DecodeRuneInString s).1
    then TrimLeft (skip (utf8.DecodeRuneInString s).2 s)
    else s.
Proof.
  destruct s as [|c r]; [reflexivity|].
  rewrite TrimLeft_unfold.
  pose proof (spaceWidth_Decode (String c r)) as Hw.
  pose proof (spaceWidth_le (String c r)) as Hle.
  pose proof (spaceWidth_le_3 (String c r)) as H3.
  destruct (IsSpace _); [|by rewrite Hw].
  rewrite <- Hw. cbn [String.length] in Hle.
  destruct (spaceWidth (String c r)) as [|[|[|[|k]]]] eqn:E; [| | | |lia].
  - (* a white-space rune has a width *)
    exfalso. destruct (utf8.DecodeRuneInString (String c r)) as [x n] eqn:D.
    cbn [snd] in Hw. subst n.
    destruct (Z.ltb_spec (byte c) RuneSelf) as [Hlt|Hge].
    + rewrite utf8_facts.Decode_ascii in D by done. discriminate.
    + pose proof (utf8_facts.Decode_not_ascii c r Hge) as [_ Hn]. rewrite D in Hn.
      cbn in Hn. lia.
  - done.
  - destruct r as [|c1 r1]; [cbn in Hle; lia|done].
  - destruct r as [|c1 [|c2 r2]]; [cbn in Hle; lia..|done].
Qed.

End strings_facts.

(** * Serial-column detection *)

Lemma len_bytes s : length (bytes s) = len s.
Proof. unfold bytes. induction s; cbn; congruence. Qed.

Lemma digitRune_byte c : digitRune (byte c) = digitByte c.
Proof. unfold digitRune, digitByte. lia. Qed.

Lemma digitByte_ascii c : digitByte c = true -> (byte c < RuneSelf)%Z.
Proof. unfold digitByte, RuneSelf. lia. Qed.

(** The loop over the runes of [s] stops at the first byte that is not an
    ASCII digit: a rune that starts with a byte of 0x80 or more is no digit. *)
Lemma range_from_digits fuel s :
  len s <= fuel ->
  forallb digitRune (utf8.range_from fuel s) = forallb digitByte (bytes s).
Proof.
  revert s. induction fuel as [|fuel IH]; intros [|c r] Hlen; cbn in Hlen; try done; [lia|].
  cbn [utf8.range_from bytes list_ascii_of_string forallb].
  destruct (Z.ltb_spec (byte c) RuneSelf) as [Hlt|Hge].
  - rewrite utf8_facts.Decode_ascii by done. cbn [forallb skip].
    rewrite digitRune_byte. f_equal. apply IH. lia.
  - destruct (utf8_facts.Decode_not_ascii c r Hge) as [Hr _].
    destruct (utf8.DecodeRuneInString (String c r)) as [x size]. cbn [fst forallb] in *.
    replace (digitRune x) with false by (unfold digitRune, RuneSelf in *; lia).
    replace (digitByte c) with false by (unfold digitByte, RuneSelf in *; lia).
    done.
Qed.

(** On a string of ASCII bytes the runes are the bytes. *)
Lemma range_from_ascii fuel s :
  len s <= fuel -> strings.isASCII s = true -> utf8.range_from fuel s = byte <$> bytes s.
Proof.
  revert s. induction fuel as [|fuel IH]; intros [|c r] Hlen; cbn in Hlen; try done; [lia|].
  unfold strings.isASCII. cbn [list_ascii_of_string forallb]. intros [Hc Hr]%andb_true_iff.
  cbn [utf8.range_from bytes list_ascii_of_string fmap list_fmap].
  rewrite utf8_facts.Decode_ascii by lia. cbn [skip]. f_equal. apply IH; [lia|done].
Qed.

Lemma digits_isASCII s : forallb digitByte (bytes s) = true -> strings.isASCII s = true.
Proof.
  unfold strings.isASCII, bytes. induction (list_ascii_of_string s) as [|c l IH]; [done|].
  cbn [forallb]. intros [Hc Hl]%andb_true_iff. apply digitByte_ascii in Hc.
  rewrite IH by done. rewrite andb_true_r. lia.
Qed.

(** A string of digits has as many characters as bytes. *)
Lemma digits_range_length s :
  forallb digitByte (bytes s) = true -> length (utf8.range s) = len s.
Proof.
  intros H. unfold utf8.range. rewrite range_from_ascii by eauto using digits_isASCII.
  by rewrite length_fmap, len_bytes.
Qed.

Lemma forallb_Forall {A} (f : A -> bool) (P : A -> Prop) l :
  (forall x, f x = true <-> P x) -> forallb f l = true <-> Forall P l.
Proof.
  intros Hf. induction l as [|x l IH]; cbn [forallb]; [by split|].
  rewrite andb_true_iff, Forall_cons, Hf, IH. done.
Qed.

(** What [isNumericShort] decides, on the bytes of the trimmed string. *)
Lemma isNumericShort_bytes s :
  isNumericShort s = true <->
  strings.TrimSpace s <> EmptyString /\ len (strings.TrimSpace s) <= 6
  /\ forallb digitByte (bytes (strings.TrimSpace s)) = true.
Proof.
  unfold isNumericShort.
  change (fun r => negb ((r <? 48)%Z || (r >? 57)%Z)) with digitRune.
  unfold utf8.range. rewrite range_from_digits by done.
  destruct (String.eqb_spec (strings.TrimSpace s) EmptyString) as [->|Hne]; cbn [orb].
  - split; [done|]. by intros [? _].
  - destruct (Nat.ltb_spec 6 (len (strings.TrimSpace s))).
    + split; [done|]. intros (_ & ? & _). lia.
    + split; [intros; split_and!; [done|lia|done]|]. by intros (_ & _ & ?).
Qed.

(** The same on the characters of the trimmed string: a string of ASCII
    digits has one byte per character. *)
Lemma isNumericShort_runes s :
  isNumericShort s = true <->
  strings.TrimSpace s <> EmptyString /\ length (utf8.range (strings.TrimSpace s)) <= 6
  /\ Forall (fun r => (0x30 <= r <= 0x39)%Z) (utf8.range (strings.TrimSpace s)).
Proof.
  rewrite isNumericShort_bytes.
  assert (forall t, Forall (fun r => (0x30 <= r <= 0x39)%Z) (utf8.range t)
                    <-> forallb digitByte (bytes t) = true) as Hd.
  { intros t. unfold utf8.range. rewrite <- (range_from_digits (len t) t) by done.
    symmetry. apply forallb_Forall. intros r. unfold digitRune. lia. }
  rewrite Hd. split; intros (Hne & Hlen & Hdig); split_and!; try done.
  - by rewrite digits_range_length.
  - by rewrite <- digits_range_length.
Qed.

(** C2: the serial shift of a row is 1 exactly when the row has at least
    five cells and the trimmed text of its first cell is non-empty, at most
    six characters long and made of ASCII digits only; it is 0 otherwise.
    A row of five cells or more whose first cell is "007" is shifted, a row
    of exactly four cells never is. *)
Theorem C2_serial_shift (cols : list string) :
  (serialShift cols = 1 <->
     5 <= length cols
     /\ let first := strings.TrimSpace (EqText cols 0) in
        first <> EmptyString /\ length (utf8.range first) <= 6
        /\ Forall (fun r => (0x30 <= r <= 0x39)%Z) (utf8.range first))
  /\ (serialShift cols <> 1 -> serialShift cols = 0)
  /\ (5 <= length cols -> cols !! 0 = Some "007" -> serialShift cols = 1)
  /\ (length cols = 4 -> serialShift cols = 0).
Proof.
  assert (serialShift cols = 1 <-> 5 <= length cols /\ isNumericShort (EqText cols 0) = true) as H.
  { unfold serialShift. destruct (Nat.leb_spec 5 (length cols)).
    - assert (isNumericShort (strings.TrimSpace (EqText cols 0)) = isNumericShort (EqText cols 0)) as ->.
      { unfold isNumericShort. by rewrite strings_facts.TrimSpace_idem. }
      destruct (isNumericShort _); split; try done; [by intros [_ ?]].
    - split; [done|lia]. }
  split_and!.
  - rewrite H, isNumericShort_runes. done.
  - unfold serialShift. repeat case_match; done.
  - intros Hlen H0. apply H. split; [done|]. unfold EqText. by rewrite H0.
  - intros Hlen. unfold serialShift. by destruct (Nat.leb_spec 5 (length cols)); [lia|].
Qed.

(** A row of five cells that starts with "007" is shifted; the same row
    cut to four cells is not. *)
Lemma C2_serial_shift_witness :
  serialShift ["007"; "a"; "b"; "c"; "d"] = 1 /\ serialShift ["007"; "a"; "b"; "c"] = 0.
Proof.
  split.
  - by apply (C2_serial_shift ["007"; "a"; "b"; "c"; "d"]); [cbn; lia|].
  - by apply (C2_serial_shift ["007"; "a"; "b"; "c"]).
Defined.

(** * Field reads *)

Lemma readBy_header headerMap cols key pos idx x :
  headerMap !! key = Some idx -> cols !! idx = Some x ->
  readBy headerMap cols key pos = strings.TrimSpace x.
Proof.
  intros Hk Hx. unfold readBy, EqText. rewrite Hk, Hx.
  apply lookup_lt_Some in Hx. by destruct (Nat.ltb_spec idx (length cols)); [|lia].
Qed.

Lemma readBy_position headerMap cols key pos :
  (forall idx, headerMap !! key = Some idx -> length cols <= idx) ->
  readBy headerMap cols key pos =
  match cols !! pos with
  | Some x => strings.TrimSpace x
  | None => EmptyString
  end.
Proof.
  intros Hk. unfold readBy, EqText.
  assert ((if pos <? length cols then strings.TrimSpace (default EmptyString (cols !! pos))
           else EmptyString)
          = match cols !! pos with Some x => strings.TrimSpace x | None => EmptyString end) as E.
  { destruct (Nat.ltb_spec pos (length cols)) as [Hlt|Hge].
    - apply lookup_lt_is_Some in Hlt as [x Hx]. by rewrite Hx.
    - by rewrite (lookup_ge_None_2 _ _ Hge). }
  destruct (headerMap !! key) as [idx|] eqn:Hi; [|done].
  specialize (Hk idx eq_refl). by destruct (Nat.ltb_spec idx (length cols)); [lia|].
Qed.

(** C1: for every row and each of the roles date, cause, subject and
    summary: when the header map has an index for the role and the row has
    a cell there, the field is the text of that cell, and the serial shift
    plays no part; otherwise the field is the text of the cell at the
    role's position (date 0, cause 1, subject 2, summary 3) plus the row's
    shift, and it is empty when the row has no such cell. *)
Theorem C1_field_read (lib : Library) (base : URL lib) (headerMap : gmap string nat)
    (s : Row) :
  let cols := row_td s in
  let shift := serialShift cols in
  Forall (fun '(key, position, field) =>
    let value := field (rowJudgment lib base headerMap s) in
    (forall idx x, headerMap !! key = Some idx -> cols !! idx = Some x ->
       value = strings.TrimSpace x)
    /\ ((forall idx, headerMap !! key = Some idx -> length cols <= idx) ->
        (forall x, cols !! (position + shift) = Some x -> value = strings.TrimSpace x)
        /\ (length cols <= position + shift -> value = EmptyString)))
    positional.
Proof.
  intros cols shift. unfold positional.
  repeat apply Forall_cons_2; [..|apply Forall_nil_2]; cbn [rowJudgment DateOfJudgment
    CauseTitleCaseNo Subject JudgmentSummary]; fold cols; fold shift.
  all: split; [intros idx x Hk Hx; by apply readBy_header with idx|].
  all: intros Hk; rewrite (readBy_position _ _ _ _ Hk); split;
    [by intros x ->|intros Hge; by rewrite (lookup_ge_None_2 _ _ Hge)].
Qed.

(** Without a header the date of a numbered row is its second cell; a
    header that maps the date to column 0 is followed to the letter. *)
Lemma C1_field_read_witness :
  DateOfJudgment (rowJudgment demo.lib demo.base ∅
                    (demo.row ["7"; "d"; "c"; "s"; "m"] [])) = "d"
  /\ DateOfJudgment (rowJudgment demo.lib demo.base {["date" := 0]}
                       (demo.row ["7"; "d"; "c"; "s"; "m"] [])) = "7".
Proof.
  split.
  - pose proof (C1_field_read demo.lib demo.base ∅
                  (demo.row ["7"; "d"; "c"; "s"; "m"] [])) as H.
    apply Forall_inv in H. destruct H as [_ H].
    destruct H as [H _]; [intros idx; by rewrite lookup_empty|].
    exact (H "d" ltac:(vm_compute; reflexivity)).
  - pose proof (C1_field_read demo.lib demo.base {["date" := 0]}
                  (demo.row ["7"; "d"; "c"; "s"; "m"] [])) as H.
    apply Forall_inv in H. destruct H as [H _].
    exact (H 0 "7" ltac:(vm_compute; reflexivity) ltac:(vm_compute; reflexivity)).
Defined.

(** * The header mapper and the row loop *)

Section ExtractorFacts.
Context (lib : Library).

Lemma ToLower_empty : ToLower lib EmptyString = EmptyString.
Proof. reflexivity. Qed.

(** The switch of the header loop is the rule set, tried in order. *)
Lemma headerCell_rules i h headerMap hasHeader :
  headerCell lib i h (headerMap, hasHeader) =
  (assign (cellRole lib h) i headerMap,
   hasHeader || negb (String.eqb (strings.TrimSpace h) EmptyString)).
Proof.
  unfold headerCell, cellRole, firstRule, rules, assign.
  destruct (String.eqb_spec (strings.TrimSpace h) EmptyString) as [->|Hne]; cbn [negb].
  - rewrite ToLower_empty. cbn. by rewrite orb_false_r.
  - rewrite orb_true_r. cbn [List.find existsb fst snd].
    rewrite !orb_false_r.
    repeat (destruct (strings.Contains _ _); cbn [orb fmap option_fmap option_map snd]; try done).
Qed.

Lemma Each_from_app {A St} (f : nat -> A -> St -> St) i l1 l2 st :
  Each_from f i (l1 ++ l2) st = Each_from f (i + length l1) l2 (Each_from f i l1 st).
Proof.
  revert i st. induction l1 as [|x l1 IH]; intros i st; cbn [Each_from app length].
  - by rewrite Nat.add_0_r.
  - rewrite IH. f_equal. lia.
Qed.

Lemma Each_snoc {A St} (f : nat -> A -> St -> St) l x st :
  Each f (l ++ [x]) st = f (length l) x (Each f l st).
Proof. unfold Each. by rewrite Each_from_app. Qed.

Lemma hasHeader_spec (ths : list string) :
  (Each (headerCell lib) ths (∅, false)).2 = true
  <-> exists h, h ∈ ths /\ strings.TrimSpace h <> EmptyString.
Proof.
  induction ths as [|x ths IH] using rev_ind.
  - cbn. split; [done|]. intros (h & Hh & _). by apply elem_of_nil in Hh.
  - rewrite Each_snoc. destruct (Each _ ths _) as [hm hh] eqn:E.
    rewrite headerCell_rules. cbn [snd] in *. rewrite orb_true_iff, IH, negb_true_iff.
    split.
    + intros [(h & Hin & Hne)|Hx].
      * exists h. split; [|done]. apply elem_of_app. by left.
      * exists x. split; [apply elem_of_app; right; by apply list_elem_of_singleton|].
        intros Heq. by rewrite Heq in Hx.
    + intros (h & [Hin|Hin%list_elem_of_singleton]%elem_of_app & Hne).
      * left. eauto.
      * subst h. right. by destruct (String.eqb_spec (strings.TrimSpace x) EmptyString).
Qed.

(** The index a role ends up with is the position of the last cell that
    was given the role. *)
Lemma headerMap_last (ths : list string) key idx :
  (Each (headerCell lib) ths (∅, false)).1 !! key = Some idx
  <-> (exists h, ths !! idx = Some h /\ cellRole lib h = Some key)
      /\ (forall j h, idx < j -> ths !! j = Some h -> cellRole lib h <> Some key).
Proof.
  revert idx. induction ths as [|x ths IH] using rev_ind; intros idx.
  - cbn. rewrite lookup_empty. split; [done|]. by intros [(h & Hh & _) _].
  - rewrite Each_snoc. destruct (Each _ ths _) as [hm hh] eqn:E.
    rewrite headerCell_rules. cbn [fst] in *.
    destruct (decide (cellRole lib x = Some key)) as [Hx|Hx].
    + rewrite Hx. cbn [assign]. rewrite lookup_insert_eq. split.
      * intros [= <-]. split.
        -- exists x. by rewrite lookup_app_r, Nat.sub_diag by lia.
        -- intros j h Hj Hl. apply lookup_lt_Some in Hl. rewrite length_app in Hl.
           cbn in Hl. lia.
      * intros [(h & Hl & Hh) Hlast]. f_equal.
        pose proof (lookup_lt_Some _ _ _ Hl) as Hlt. rewrite length_app in Hlt. cbn in Hlt.
        destruct (decide (idx = length ths)) as [->|Hne]; [done|].
        exfalso. apply (Hlast (length ths) x); [lia| |done].
        by rewrite lookup_app_r, Nat.sub_diag by lia.
    + assert (assign (cellRole lib x) (length ths) hm !! key = hm !! key) as ->.
      { unfold assign. destruct (cellRole lib x) as [k|]; [|done].
        apply lookup_insert_ne. congruence. }
      rewrite IH. split.
      * intros [(h & Hl & Hh) Hlast]. split.
        -- exists h. split; [|done]. by apply lookup_app_l_Some.
        -- intros j h' Hj Hl'. destruct (decide (j < length ths)) as [Hlt|Hge].
           ++ rewrite lookup_app_l in Hl' by done. eauto.
           ++ rewrite lookup_app_r in Hl' by lia.
              apply list_lookup_singleton_Some in Hl' as [_ <-]. done.
      * intros [(h & Hl & Hh) Hlast].
        assert (idx < length ths) as Hlt.
        { pose proof (lookup_lt_Some _ _ _ Hl) as Hlt. rewrite length_app in Hlt. cbn in Hlt.
          destruct (decide (idx = length ths)) as [->|Hne]; [|lia].
          rewrite lookup_app_r, Nat.sub_diag in Hl by lia. cbn in Hl. congruence. }
        rewrite lookup_app_l in Hl by done. split; [eauto|].
        intros j h' Hj Hl'. apply (Hlast j h' Hj). by apply lookup_app_l_Some.
Qed.

(** A row that is not skipped as the header row is read the same way
    wherever it stands. *)
Lemma tableRow_data base hm hasHeader i s js :
  (i = 0 -> hasHeader = false) ->
  tableRow lib base hm hasHeader i s js = tableRow lib base hm false 0 s js.
Proof.
  intros H. unfold tableRow. destruct i as [|i]; [|done]. by rewrite H.
Qed.

Lemma Each_from_tableRow base hm hasHeader i rows js :
  Each_from (tableRow lib base hm hasHeader) (S i) rows js
  = foldl (fun js s => tableRow lib base hm false 0 s js) js rows.
Proof.
  revert i js. induction rows as [|s rows IH]; intros i js; [done|].
  cbn [Each_from foldl]. by rewrite IH.
Qed.

Lemma nonEmpty_true s : nonEmpty s = true <-> s <> EmptyString.
Proof. unfold nonEmpty. destruct (String.eqb_spec s EmptyString); split; done. Qed.

Lemma keeps_someField j :
  nonEmpty (DateOfJudgment j) || nonEmpty (CauseTitleCaseNo j) || nonEmpty (Subject j)
  || nonEmpty (JudgmentSummary j) || nonEmpty (PDFLink j) = true <-> someField j.
Proof. unfold someField. rewrite !orb_true_iff, !nonEmpty_true. tauto. Qed.

Lemma header_cells rows h :
  h ∈ concat (row_th <$> First rows)
  <-> exists r0, rows !! 0 = Some r0 /\ h ∈ row_th r0.
Proof.
  destruct rows as [|r0 rows]; cbn.
  - split; [by intros ?%elem_of_nil|]. by intros (? & ? & _).
  - rewrite app_nil_r. split; [eauto|]. by intros (? & [= <-] & ?).
Qed.

(** C7: the header loop gives every header cell the role of the first rule
    of the ordered rule set (date; cause, case or title; subject; summary;
    view or pdf) that its lower-cased text matches, so that a cell changes
    the index of one role at most; hasHeader is true exactly when a header
    cell of row 0 has non-empty text (the text of the cell with the white
    space around it removed, as the loop reads it); and the row loop skips
    row 0 exactly when hasHeader is true: with a header it reads the rows
    after row 0, without one it reads row 0 like every other row. *)
Theorem C7_header_rules (base : URL lib) (rows : list Row) :
  let hasHeader := (header lib rows).2 in
  (forall i h headerMap hh,
     (headerCell lib i h (headerMap, hh)).1
     = assign (firstRule (ToLower lib (strings.TrimSpace h))) i headerMap)
  /\ (forall i h headerMap hh k1 k2,
        (headerCell lib i h (headerMap, hh)).1 !! k1 <> headerMap !! k1 ->
        (headerCell lib i h (headerMap, hh)).1 !! k2 <> headerMap !! k2 -> k1 = k2)
  /\ (hasHeader = true
      <-> exists r0 h, rows !! 0 = Some r0 /\ h ∈ row_th r0
                       /\ strings.TrimSpace h <> EmptyString)
  /\ (forall headerMap,
        Each (tableRow lib base headerMap hasHeader) rows []
        = foldl (fun js s => tableRow lib base headerMap false 0 s js) []
                (if hasHeader then tail rows else rows)).
Proof.
  intros hasHeader. split_and!.
  - intros. by rewrite headerCell_rules.
  - intros i h hm hh k1 k2. rewrite headerCell_rules. cbn [fst]. unfold assign.
    destruct (cellRole lib h) as [k|]; [|done].
    intros H1 H2. destruct (decide (k = k1)) as [<-|N1].
    + destruct (decide (k = k2)) as [<-|N2]; [done|]. by rewrite lookup_insert_ne in H2.
    + by rewrite lookup_insert_ne in H1.
  - unfold hasHeader, header. rewrite hasHeader_spec. split.
    + intros (h & (r0 & ? & ?)%header_cells & ?). eauto.
    + intros (r0 & h & ? & ? & ?). exists h. split; [|done]. apply header_cells. eauto.
  - intros hm. unfold Each. destruct rows as [|r0 rows]; [by destruct hasHeader|].
    cbn [Each_from]. rewrite Each_from_tableRow. destruct hasHeader; [done|].
    cbn [tail foldl]. done.
Qed.

(** C10: a role of the header map has the index [idx] exactly when the
    header cell at [idx] of row 0 matches the role and no later header cell
    of row 0 does: of several cells that match one role the last one, with
    the highest index, is recorded, each later match overwriting the
    earlier one. *)
Theorem C10_last_header_wins (rows : list Row) (key : string) (idx : nat) :
  let ths := concat (row_th <$> First rows) in
  (header lib rows).1 !! key = Some idx
  <-> (exists h, ths !! idx = Some h /\ cellRole lib h = Some key)
      /\ (forall j h, idx < j -> ths !! j = Some h -> cellRole lib h <> Some key).
Proof. intros ths. unfold header. apply headerMap_last. Qed.

(** C8: a data row (a row that is not skipped as the header row and has
    at least one cell) adds its record to the records exactly when one of
    the five fields of the record is not empty; when all five are empty the
    records are left as they were, and the loop goes on. *)
Theorem C8_retention (base : URL lib) (headerMap : gmap string nat) (hasHeader : bool)
    (i : nat) (s : Row) (judgments : list Judgment) :
  (i = 0 -> hasHeader = false) -> 1 <= length (row_td s) ->
  let j := rowJudgment lib base headerMap s in
  let judgments' := tableRow lib base headerMap hasHeader i s judgments in
  (judgments' = judgments ++ [j] <-> someField j)
  /\ (~ someField j -> judgments' = judgments).
Proof.
  intros Hrow Hcols j judgments'. subst judgments'.
  rewrite tableRow_data by done. unfold tableRow. cbn [Nat.eqb andb].
  destruct (Nat.ltb_spec (length (row_td s)) 1); [lia|].
  fold j. destruct (_ || _) eqn:E.
  - apply keeps_someField in E. split; [done|]. by intros [].
  - assert (~ someField j) as Hn by (rewrite <- keeps_someField, E; done).
    split; [|done]. split; [|done]. intros Heq. apply (f_equal length) in Heq.
    rewrite length_app in Heq. cbn in Heq. lia.
Qed.

(** * The PDF link *)

Lemma anchor_spec base i a pdf :
  anchor lib base i a pdf =
  match a with
  | Some href => if isPDFHref lib href then (resolve lib base href, false) else (pdf, true)
  | None => (pdf, true)
  end.
Proof.
  destruct a as [href|]; [|done]. unfold anchor, isPDFHref.
  destruct (strings.HasSuffix _ _); [done|].
  destruct (strings.Contains _ "view-pdf") eqn:E; [done|]. cbn [orb].
  destruct (strings.Contains _ "/view-pdf/") eqn:E'; [|done].
  apply strings_facts.Contains_tail in E'.
  apply (strings_facts.Contains_init _ "view-pdf" "/") in E'. congruence.
Qed.

(** The anchors before the first PDF link leave [pdf] as it is. *)
Lemma EachWithBreak_from_skip base i pre rest pdf :
  Forall (fun a => isPDFAnchor lib a = false) pre ->
  EachWithBreak_from (anchor lib base) i (pre ++ rest) pdf
  = EachWithBreak_from (anchor lib base) (i + length pre) rest pdf.
Proof.
  intros H. revert i. induction H as [|a pre Ha _ IH]; intros i; cbn [app length].
  - by rewrite Nat.add_0_r.
  - cbn [EachWithBreak_from]. rewrite anchor_spec.
    assert ((match a with
             | Some href => if isPDFHref lib href then (resolve lib base href, false)
                            else (pdf, true)
             | None => (pdf, true)
             end) = (pdf, true)) as ->.
    { destruct a as [href|]; [|done]. cbn in Ha. by rewrite Ha. }
    rewrite IH. f_equal. lia.
Qed.

Lemma isPDFHref_not_blank href :
  isPDFHref lib href = true -> strings.TrimSpace href <> EmptyString.
Proof. intros H E. unfold isPDFHref in H. rewrite E in H. done. Qed.

(** C4, as amended: the PDF field of a row is what [resolve] makes of the
    href of the first anchor, in document order, whose trimmed, lower-cased
    href ends with ".pdf" or contains "view-pdf", and the anchor loop looks
    at no anchor after that one.  [resolve] removes the white space around
    the href; what is left is returned as it is when it parses as an
    absolute URL, and also when it does not parse, and is resolved against
    the base URL of the page when it parses as a relative reference.  When
    no anchor matches, all are looked at and the PDF field is empty; the
    row is read all the same. *)
Theorem C4_pdf_link (base : URL lib) (headerMap : gmap string nat) (s : Row) :
  let pdf := PDFLink (rowJudgment lib base headerMap s) in
  let looked := (EachWithBreak (anchor lib base) (row_a s) EmptyString).2 in
  (forall pre href post,
     row_a s = pre ++ Some href :: post ->
     Forall (fun a => isPDFAnchor lib a = false) pre -> isPDFHref lib href = true ->
     let href' := strings.TrimSpace href in
     pdf = resolve lib base href /\ looked = S (length pre)
     /\ match Parse lib href' with
        | Some u =>
          if IsAbs lib u then resolve lib base href = href'
          else resolve lib base href = URLString lib (ResolveReference lib base u)
        | None => resolve lib base href = href'
        end)
  /\ (Forall (fun a => isPDFAnchor lib a = false) (row_a s) ->
      pdf = EmptyString /\ looked = length (row_a s)).
Proof.
  intros pdf looked. subst pdf looked. cbn [rowJudgment PDFLink]. split.
  - intros pre href post -> Hpre Hhref.
    assert (EachWithBreak (anchor lib base) (pre ++ Some href :: post) EmptyString
            = (resolve lib base href, S (length pre))) as ->.
    { unfold EachWithBreak. rewrite EachWithBreak_from_skip by done.
      cbn [EachWithBreak_from]. by rewrite anchor_spec, Hhref. }
    split_and!; [done..|].
    unfold resolve.
    destruct (String.eqb_spec (strings.TrimSpace href) EmptyString) as [E|_].
    { by apply isPDFHref_not_blank in Hhref. }
    destruct (Parse lib (strings.TrimSpace href)) as [u|]; [|done].
    by destruct (IsAbs lib u).
  - intros H.
    assert (EachWithBreak (anchor lib base) (row_a s) EmptyString
            = (EmptyString, length (row_a s))) as ->; [|done].
    unfold EachWithBreak.
    rewrite <- (app_nil_r (row_a s)) at 1. by rewrite EachWithBreak_from_skip.
Qed.

End ExtractorFacts.

(** * One attempt *)

Section AttemptFacts.
Context (lib : Library).

Lemma length_eqb_0 {A} (l : list A) : (length l =? 0) = true <-> l = [].
Proof. destruct l; cbn; split; done. Qed.

(** C9: for a year below 2016 or above 2025 [ScrapeYear] returns its
    range error at once, whatever the network and the disk would do, with
    no page requested and no directory or file touched; a year from 2016
    to 2025 goes on to the request of its page. *)
Theorem C9_year_range (os : OS lib) (year : Z) (outDir : string) (w : World) :
  ((year < 2016 \/ 2025 < year)%Z ->
     ScrapeYear lib os year outDir w = (Some errYearRange, w))
  /\ ((2016 <= year <= 2025)%Z ->
        fetched (ScrapeYear lib os year outDir w).2 = pageURL year :: fetched w
        /\ (ScrapeYear lib os year outDir w).1 <> Some errYearRange).
Proof.
  unfold ScrapeYear. split; intros H.
  - assert ((year <? 2016)%Z || (year >? 2025)%Z = true) as -> by lia. done.
  - assert ((year <? 2016)%Z || (year >? 2025)%Z = false) as -> by lia.
    repeat case_match; cbn; done.
Qed.

(** With no record extracted the attempt stops before [os.MkdirAll]. *)
Lemma ScrapeYear_zero_records (os : OS lib) year outDir w resp doc :
  (2016 <= year <= 2025)%Z ->
  Get os (pageURL year) = inl resp -> StatusCode resp = 200%Z ->
  NewDocumentFromReader lib (Body resp) = Some doc ->
  extract lib (RequestURL resp) doc = [] ->
  ScrapeYear lib os year outDir w
  = (Some (errNoJudgments (pageURL year)),
     {| fetched := pageURL year :: fetched w; dirs := dirs w; files := files w |}).
Proof.
  intros Hy Hget Hs Hdoc Hnone. unfold ScrapeYear.
  assert ((year <? 2016)%Z || (year >? 2025)%Z = false) as -> by lia.
  rewrite Hget, Hs, Hdoc, Hnone. done.
Qed.

(** The scenario, whatever the libraries: the header maps the four fields
    past the serial column, and the link of the row is resolved. *)
Lemma scenario_extract (base : URL lib) :
  extract lib base demo.scenario
  = [ {| DateOfJudgment := "01-01-2016"; CauseTitleCaseNo := "X vs Y";
         Subject := "Constitutional"; JudgmentSummary := "Summary text";
         PDFLink := resolve lib base "view-pdf/123" |} ].
Proof. vm_compute. reflexivity. Qed.

(** C6, as amended: an attempt that succeeds has written the whole of the
    records extracted, a non-empty set, to the year's file; an attempt that
    fails otherwise than in the final write has written nothing to any
    file; an attempt whose final write fails leaves the year's file created
    and incomplete.  When no record is extracted the attempt fails before
    any directory is created and any file written. *)
Theorem C6_attempt_writes (os : OS lib) (year : Z) (outDir : string) (w : World) :
  let r := ScrapeYear lib os year outDir w in
  let f := outFile outDir year in
  (r.1 = None ->
     exists resp doc,
       Get os (pageURL year) = inl resp
       /\ NewDocumentFromReader lib (Body resp) = Some doc
       /\ extract lib (RequestURL resp) doc <> []
       /\ files r.2 = <[f := Complete (extract lib (RequestURL resp) doc)]> (files w))
  /\ (forall e, r.1 = Some e -> e <> errEncode -> files r.2 = files w)
  /\ (r.1 = Some errEncode ->
        exists resp doc,
          Get os (pageURL year) = inl resp
          /\ NewDocumentFromReader lib (Body resp) = Some doc
          /\ extract lib (RequestURL resp) doc <> []
          /\ files r.2
             = <[f := Incomplete (extract lib (RequestURL resp) doc)]> (files w))
  /\ (forall resp doc,
        (2016 <= year <= 2025)%Z ->
        Get os (pageURL year) = inl resp -> StatusCode resp = 200%Z ->
        NewDocumentFromReader lib (Body resp) = Some doc ->
        extract lib (RequestURL resp) doc = [] ->
        r.1 = Some (errNoJudgments (pageURL year))
        /\ dirs r.2 = dirs w /\ files r.2 = files w).
Proof.
  intros r f. subst r f.
  split_and!; [| | |intros; by erewrite ScrapeYear_zero_records].
  all: unfold ScrapeYear.
  all: destruct ((year <? 2016)%Z || (year >? 2025)%Z); [done|].
  all: destruct (Get os (pageURL year)) as [resp|e]; [|done].
  all: destruct (negb (StatusCode resp =? 200)%Z); [done|].
  all: destruct (NewDocumentFromReader lib (Body resp)) as [doc|] eqn:Hdoc; [|done].
  all: destruct (length (extract lib (RequestURL resp) doc) =? 0) eqn:Hn; [done|].
  all: assert (extract lib (RequestURL resp) doc <> []) as Hne
         by (intros E; apply length_eqb_0 in E; congruence).
  all: destruct (MkdirAll os outDir); [|done].
  all: destruct (Create os (outFile outDir year)); [|done].
  all: destruct (Write os (outFile outDir year)); cbn; rewrite ?insert_insert_eq;
    try done; try (by intros e [= <-]).
  all: intros _; by exists resp, doc.
Qed.

(** An attempt touches no file but the year's own. *)
Lemma ScrapeYear_other_files (os : OS lib) year outDir w p :
  p <> outFile outDir year ->
  files (ScrapeYear lib os year outDir w).2 !! p = files w !! p.
Proof.
  intros Hp. unfold ScrapeYear.
  repeat case_match; cbn; try done; by rewrite !lookup_insert_ne.
Qed.

End AttemptFacts.

(** * Output files *)

Lemma norm_not_nil d :
  Decimal.norm d <> Decimal.Pos Decimal.Nil /\ Decimal.norm d <> Decimal.Neg Decimal.Nil.
Proof.
  destruct d as [d|d]; cbn [Decimal.norm]; unfold Decimal.unorm;
    destruct (Decimal.nzhead d); split; discriminate.
Qed.

(** [%d] prints different numbers differently. *)
Lemma itoa_inj a b : itoa a = itoa b -> a = b.
Proof.
  unfold itoa. intros H. apply to_int_inj.
  assert (forall z, NilZero.int_of_string (NilZero.string_of_int (Z.to_int z))
                    = Some (Z.to_int z)) as Hisi.
  { intros z. assert (Z.to_int z = Decimal.norm (Z.to_int z)) as E
      by (by rewrite <- to_of, of_to).
    apply NilZero.isi; rewrite E; apply norm_not_nil. }
  apply (f_equal NilZero.int_of_string) in H. rewrite !Hisi in H. congruence.
Qed.

Lemma bytes_app s t :
  list_ascii_of_string (s +:+ t) = list_ascii_of_string s ++ list_ascii_of_string t.
Proof. induction s as [|c s IH]; [done|]. cbn. by rewrite <- IH. Qed.

Lemma append_inv_tail s1 s2 t : s1 +:+ t = s2 +:+ t -> s1 = s2.
Proof.
  intros H. apply (f_equal list_ascii_of_string) in H. rewrite !bytes_app in H.
  apply app_inv_tail in H. apply (f_equal string_of_list_ascii) in H.
  by rewrite !string_of_list_ascii_of_string in H.
Qed.

(** Every year has an output file of its own. *)
Lemma outFile_inj out y1 y2 : outFile out y1 = outFile out y2 -> y1 = y2.
Proof.
  unfold outFile. intros [= H]. apply String.app_inj in H.
  apply append_inv_tail in H. by apply itoa_inj.
Qed.

(** * The scheduler *)

Lemma wrap_small n : (- 2 ^ 63 <= n < 2 ^ 63)%Z -> wrap n = n.
Proof. intros H. unfold wrap. rewrite Z.mod_small; lia. Qed.

Lemma reportedDone_snoc year log e :
  reportedDone year (log ++ [e]) = reportedDone year log || reportsDone year e.
Proof. unfold reportedDone. rewrite existsb_app. cbn. by rewrite orb_false_r. Qed.

Section SchedulerFacts.
Context (lib : Library) (net : Z -> Z -> OS lib).
Context (retries retryDelay : Z) (out : string).

Local Abbreviation attempts' := (attempts lib net retries retryDelay out).
Local Abbreviation worker' := (worker lib net retries retryDelay out).

(** A job that fails every time, followed from the counter [a] on: [n]
    attempts are each followed by a sleep, and one more by the give-up. *)
Lemma attempts_all_fail (n : nat) :
  forall fuel id year a w log,
    (0 <= a)%Z -> (a + Z.of_nat n = retries)%Z -> (retries < maxInt)%Z ->
    (- 2 ^ 63 <= retryDelay * Second < 2 ^ 63)%Z ->
    alwaysFails lib net retries out year -> n < fuel ->
    exists w' events,
      attempts' fuel id year a w log = Some (w', log ++ events)
      /\ List.filter timing events
         = flat_map (fun k => [Scraping id year k; Sleep (retryDelay * Second)])
                    (seqZ (a + 1) (Z.of_nat n))
           ++ [Scraping id year (retries + 1)]
      /\ last events = Some (GivingUp id year (retries + 1))
      /\ (forall p, p <> outFile out year -> files w' !! p = files w !! p).
Proof.
  unfold maxInt.
  induction n as [|n IH]; intros fuel id year a w log Ha Hn Hmax Hd Hfail Hfuel;
    (destruct fuel as [|fuel]; [lia|]); cbn [attempts].
  all: rewrite wrap_small by lia.
  all: destruct (ScrapeYear lib (net year (a + 1)) year out w) as [err w1] eqn:Hs.
  all: pose proof (Hfail (a + 1)%Z w ltac:(lia)) as Herr; rewrite Hs in Herr; cbn in Herr.
  all: destruct err as [e|]; [|done].
  all: assert (forall p, p <> outFile out year -> files w1 !! p = files w !! p) as Hw1
         by (intros p Hp; replace w1 with (ScrapeYear lib (net year (a + 1)) year out w).2
               by (by rewrite Hs); by apply ScrapeYear_other_files).
  - assert ((a + 1 >? retries)%Z = true) as -> by lia.
    exists w1, [Scraping id year (a + 1); ErrorScraping id year e; GivingUp id year (a + 1)].
    replace (retries + 1)%Z with (a + 1)%Z by lia.
    split_and!; try done. by rewrite <- !app_assoc.
  - assert ((a + 1 >? retries)%Z = false) as -> by lia.
    rewrite wrap_small by lia.
    destruct (IH fuel id year (a + 1)%Z w1
                (((log ++ [Scraping id year (a + 1)]) ++ [ErrorScraping id year e])
                   ++ [Sleep (retryDelay * Second)]))
      as (w' & events & Hrun & Htiming & Hlast & Hfiles); try lia; try done.
    exists w', ([Scraping id year (a + 1); ErrorScraping id year e;
                 Sleep (retryDelay * Second)] ++ events).
    split_and!.
    + rewrite Hrun. by rewrite <- !app_assoc.
    + rewrite List.filter_app, Htiming. cbn [List.filter timing].
      rewrite (seqZ_cons (a + 1)) by lia. cbn [flat_map].
      replace (Z.pred (Z.of_nat (S n))) with (Z.of_nat n) by lia.
      replace (Z.succ (a + 1)) with (a + 1 + 1)%Z by lia. done.
    + rewrite last_app, Hlast. done.
    + intros p Hp. rewrite Hfiles by done. auto.
Qed.

(** C3: with a retry count R from 0 up (below the largest [int]) and a
    delay of D seconds (a duration that [int64] nanoseconds can hold), a
    worker whose every attempt at a job fails makes the attempts numbered 1
    to 1 + R and no other, sleeps D seconds between every two consecutive
    attempts, gives the job up after the last one, and goes on with the jobs
    that follow, having touched the output file of no other year.  Enough fuel
    (more than R iterations) always ends the loop. *)
Theorem C3_retries (fuel : nat) (id year : Z) (jobs : list Z) (w : World)
    (log : list Event) :
  (0 <= retries < maxInt)%Z -> (- 2 ^ 63 <= retryDelay * Second < 2 ^ 63)%Z ->
  alwaysFails lib net retries out year -> Z.to_nat retries < fuel ->
  exists w' events,
    attempts' fuel id year 0 w log = Some (w', log ++ events)
    /\ List.filter isScraping events = Scraping id year <$> seqZ 1 (1 + retries)
    /\ length (List.filter isScraping events) = Z.to_nat (1 + retries)
    /\ List.filter timing events
       = retrySchedule id year retries (retryDelay * Second)
    /\ last events = Some (GivingUp id year (retries + 1))
    /\ worker' fuel id (year :: jobs) w log = worker' fuel id jobs w' (log ++ events)
    /\ (forall y, y <> year -> files w' !! outFile out y = files w !! outFile out y).
Proof.
  intros HR HD Hfail Hfuel.
  destruct (attempts_all_fail (Z.to_nat retries) fuel id year 0 w log)
    as (w' & events & Hrun & Htiming & Hlast & Hfiles); try lia; try done.
  rewrite Z2Nat.id in Htiming by lia. change (0 + 1)%Z with 1%Z in Htiming.
  assert (List.filter isScraping events = Scraping id year <$> seqZ 1 (1 + retries)) as Hs.
  { assert (List.filter isScraping events = List.filter isScraping (List.filter timing events)) as ->.
    { clear. induction events as [|[] events IH]; cbn; congruence. }
    rewrite Htiming, List.filter_app. cbn [List.filter isScraping].
    replace (1 + retries)%Z with (Z.of_nat (S (Z.to_nat retries))) by lia.
    rewrite seqZ_S, Z2Nat.id, fmap_app by lia. cbn [fmap list_fmap].
    replace (1 + retries)%Z with (retries + 1)%Z by lia. f_equal.
    generalize (seqZ 1 retries). clear. intros l.
    induction l as [|k l IH]; cbn; [done|]. by rewrite IH. }
  exists w', events. split_and!; try done.
  - rewrite Hs, length_fmap, length_seqZ. lia.
  - cbn [worker]. by rewrite Hrun.
  - intros y Hy. apply Hfiles. intros E. by apply outFile_inj in E.
Qed.

(** Without retries the pool does to every job what the sequential path
    does to every year: one call of [ScrapeYear], on the same terms. *)
Lemma pool_sequential_without_retries (years : list Z) :
  (retries <= 0)%Z ->
  forall fuel deliver k w log1 log2 y,
    0 < fuel -> reportedDone y log1 = reportedDone y log2 ->
    outcome out y <$> pool lib net retries retryDelay out fuel deliver k years w log2
    = Some (outcome out y (sequential lib net out years w log1)).
Proof.
  intros HR. induction years as [|year years IH];
    intros fuel deliver k w log1 log2 y Hfuel Hlog.
  - cbn [pool sequential fmap option_fmap option_map]. unfold outcome.
    cbn [fst snd]. by rewrite Hlog.
  - destruct fuel as [|fuel]; [lia|].
    cbn [pool worker sequential attempts].
    change (wrap (0 + 1)) with 1%Z.
    destruct (ScrapeYear lib (net year 1) year out w) as [[e|] w1].
    + assert ((1 >? retries)%Z = true) as -> by lia.
      apply IH; [lia|]. rewrite !reportedDone_snoc, Hlog. cbn [reportsDone].
      by rewrite !orb_false_r.
    + apply IH; [lia|]. rewrite !reportedDone_snoc, Hlog. cbn [reportsDone].
      by rewrite !orb_false_r.
Qed.

(** With a retry count of 0 or less the outcome of every year is the same
    at every concurrency level. *)
Lemma paths_agree_without_retries (c1 c2 : Z) (fuel : nat) (deliver : nat -> Z)
    (years : list Z) (w : World) (log : list Event) (y : Z) :
  (retries <= 0)%Z -> 0 < fuel ->
  outcome out y <$> main lib net retries retryDelay out c1 fuel deliver years w log
  = outcome out y <$> main lib net retries retryDelay out c2 fuel deliver years w log.
Proof.
  intros HR Hfuel. unfold main.
  destruct (c1 <=? 1)%Z, (c2 <=? 1)%Z; try done;
    rewrite (pool_sequential_without_retries years HR fuel deliver 0 w log log y) by done;
    done.
Qed.

(** A year whose first attempt fails and whose second succeeds is lost on
    the sequential path and scraped by the pool, as soon as one retry is
    allowed. *)
Lemma paths_diverge_on_a_transient_failure (year : Z) (w : World) (deliver : nat -> Z) :
  (1 <= retries < maxInt)%Z ->
  (ScrapeYear lib (net year 1) year out w).1 <> None ->
  (forall w', (ScrapeYear lib (net year 2) year out w').1 = None) ->
  (reportedDone year
     <$> (snd <$> main lib net retries retryDelay out 1 2 deliver [year] w [])
   = Some false)
  /\ (reportedDone year
        <$> (snd <$> main lib net retries retryDelay out 2 2 deliver [year] w [])
      = Some true).
Proof.
  unfold maxInt. intros HR H1 H2. unfold main.
  cbn [Z.leb Z.compare Pos.compare Pos.compare_cont].
  cbn [pool worker sequential attempts]. change (wrap (0 + 1)) with 1%Z.
  change (wrap (1 + 1)) with 2%Z.
  destruct (ScrapeYear lib (net year 1) year out w) as [[e|] w1]; [|done].
  assert ((1 >? retries)%Z = false) as -> by lia.
  specialize (H2 w1). destruct (ScrapeYear lib (net year 2) year out w1) as [e2 w2].
  cbn in H2. subst e2. split.
  - cbn. done.
  - cbn. rewrite Z.eqb_refl. by rewrite ?orb_true_r.
Qed.

End SchedulerFacts.

(** * The model at work *)

(** The record of the scenario, with the stand-in for [net/url]. *)
Lemma scenario_record : extract demo.lib demo.base demo.scenario = [scenarioRecord].
Proof. vm_compute. reflexivity. Qed.

(** With two retries a job that is never served makes three attempts, five
    seconds apart. *)
Lemma C3_retries_witness :
  exists w events,
    attempts demo.lib (fun _ _ => demo.offline) 2 5 "out" 3 1 2016 0 demo.start []
    = Some (w, events)
    /\ length (List.filter isScraping events) = 3
    /\ List.filter timing events
       = [Scraping 1 2016 1; Sleep 5000000000; Scraping 1 2016 2; Sleep 5000000000;
          Scraping 1 2016 3].
Proof.
  destruct (C3_retries demo.lib (fun _ _ => demo.offline) 2 5 "out" 3 1 2016 [] demo.start [])
    as (w & events & Hrun & _ & Hlen & Htiming & _).
  - unfold maxInt. lia.
  - unfold Second. lia.
  - intros k w _. discriminate.
  - cbn. lia.
  - exists w, events. split_and!; [exact Hrun|exact Hlen|exact Htiming].
Defined.

(** A row of blank cells leaves the records as they were; a row with one
    cell of text adds its record. *)
Lemma C8_retention_witness :
  tableRow demo.lib demo.base ∅ true 1 (demo.row [""; " "] []) [scenarioRecord]
  = [scenarioRecord]
  /\ tableRow demo.lib demo.base ∅ true 1 (demo.row [""; "x"] []) []
     = [ {| DateOfJudgment := ""; CauseTitleCaseNo := "x"; Subject := "";
            JudgmentSummary := ""; PDFLink := "" |} ].
Proof.
  split.
  - destruct (C8_retention demo.lib demo.base ∅ true 1 (demo.row [""; " "] [])
                [scenarioRecord]) as [_ Hdrop]; [discriminate|cbn; lia|].
    apply Hdrop. unfold someField. vm_compute. intros [H|[H|[H|[H|H]]]]; by apply H.
  - destruct (C8_retention demo.lib demo.base ∅ true 1 (demo.row [""; "x"] []) [])
      as [[_ Hkeep] _]; [discriminate|cbn; lia|].
    apply Hkeep. right. left. discriminate.
Defined.

(** The year 2015 is refused with nothing requested; 2016 is requested. *)
Lemma C9_year_range_witness :
  ScrapeYear demo.lib (demo.serving "scenario") 2015 "out" demo.start
  = (Some errYearRange, demo.start)
  /\ fetched (ScrapeYear demo.lib (demo.serving "scenario") 2016 "out" demo.start).2
     = [pageURL 2016].
Proof.
  split.
  - apply (C9_year_range demo.lib (demo.serving "scenario") 2015 "out" demo.start). lia.
  - apply (C9_year_range demo.lib (demo.serving "scenario") 2016 "out" demo.start). lia.
Defined.

(** The second of three anchors is the first PDF link: the loop looks at
    two anchors and resolves the second against the page. *)
Lemma C4_pdf_link_witness :
  PDFLink (rowJudgment demo.lib demo.base ∅
             (demo.row ["x"] [Some "/about"; Some " /docs/A.PDF ";
                              Some "https://x.gov/b.pdf"]))
  = "https://www.sci.gov.in/docs/A.PDF".
Proof.
  destruct (C4_pdf_link demo.lib demo.base ∅
              (demo.row ["x"] [Some "/about"; Some " /docs/A.PDF ";
                               Some "https://x.gov/b.pdf"])) as [H _].
  destruct (H [Some "/about"] " /docs/A.PDF " [Some "https://x.gov/b.pdf"])
    as [Hpdf _].
  - reflexivity.
  - repeat constructor.
  - reflexivity.
  - exact Hpdf.
Defined.

(** C4, as stated, fails on an absolute href followed by a space: the link
    recorded is the href without the space, not the href unchanged. *)
Lemma C4_absolute_href_is_trimmed :
  let href := "https://x.gov/a.pdf " in
  IsAbs demo.lib <$> Parse demo.lib href = Some true
  /\ PDFLink (rowJudgment demo.lib demo.base ∅ (demo.row [""] [Some href]))
     = "https://x.gov/a.pdf"
  /\ "https://x.gov/a.pdf" <> href.
Proof. split_and!; [vm_compute; reflexivity..|discriminate]. Qed.

(** The scenario is written whole; a table without rows writes nothing. *)
Lemma C6_attempt_writes_witness :
  (exists resp doc,
     Get (demo.serving "scenario") (pageURL 2016) = inl resp
     /\ NewDocumentFromReader demo.lib (Body resp) = Some doc
     /\ extract demo.lib (RequestURL resp) doc <> []
     /\ files (ScrapeYear demo.lib (demo.serving "scenario") 2016 "out" demo.start).2
        = <[outFile "out" 2016 := Complete (extract demo.lib (RequestURL resp) doc)]>
            (files demo.start))
  /\ files (ScrapeYear demo.lib (demo.serving "empty table") 2016 "out" demo.start).2
     = files demo.start.
Proof.
  destruct (C6_attempt_writes demo.lib (demo.serving "scenario") 2016 "out" demo.start)
    as [Hok _].
  destruct (C6_attempt_writes demo.lib (demo.serving "empty table") 2016 "out" demo.start)
    as (_ & Hfail & _).
  split.
  - apply Hok. vm_compute. reflexivity.
  - apply (Hfail (errNoJudgments (pageURL 2016))); [vm_compute; reflexivity|discriminate].
Defined.

(** C6, as stated, fails when the final write fails: the year's file has
    been created and holds an incomplete write, which is neither the whole
    set of records nor nothing. *)
Lemma C6_write_failure_is_neither :
  ~ allOrNothing demo.lib (demo.diskFull "scenario") 2016 "out" demo.start.
Proof.
  assert (files (ScrapeYear demo.lib (demo.diskFull "scenario") 2016 "out" demo.start).2
            !! outFile "out" 2016 = Some (Incomplete [scenarioRecord])) as H
    by (vm_compute; reflexivity).
  intros [(js & _ & E)|E]; rewrite E in H.
  - rewrite lookup_insert_eq in H. discriminate H.
  - vm_compute in H. discriminate H.
Qed.

(** C5, as stated, fails on a year whose first attempt fails and whose
    second would succeed.  With one retry, a concurrency of 1 takes the
    sequential path, which makes the one attempt, reports the year failed
    and writes no file; a concurrency of 2 takes the pool, whose worker
    tries again, reports the year done and writes its record. *)
Theorem C5_paths_diverge :
  outcome "out" 2016
    <$> main demo.lib flaky 1 2 "out" 1 2 (fun _ => 1%Z) [2016%Z] demo.start []
  = Some (false, None)
  /\ outcome "out" 2016
       <$> main demo.lib flaky 1 2 "out" 2 2 (fun _ => 1%Z) [2016%Z] demo.start []
     = Some (true, Some (Complete [scenarioRecord])).
Proof. split; vm_compute; reflexivity. Qed.

(** A header row with a blank cell and a date cell is a header; the cell
    "Case Title" is given the role of the cause. *)
Lemma C7_header_rules_witness :
  (header demo.lib [demo.headerRow [" "; "Date"]]).2 = true
  /\ (headerCell demo.lib 3 "Case Title" (∅, false)).1 = {["cause" := 3]}.
Proof.
  destruct (C7_header_rules demo.lib demo.base [demo.headerRow [" "; "Date"]])
    as (Hrule & _ & Hhas & _).
  split.
  - apply Hhas. exists (demo.headerRow [" "; "Date"]), "Date".
    split_and!; [reflexivity| |discriminate].
    cbn. apply list_elem_of_further, list_elem_of_here.
  - rewrite Hrule. reflexivity.
Defined.

(** Of two header cells that speak of a date the second is recorded. *)
Lemma C10_last_header_wins_witness :
  (header demo.lib [demo.headerRow ["Date"; "Cause Title"; "Date of Order"]]).1 !! "date"
  = Some 2.
Proof.
  apply (C10_last_header_wins demo.lib
           [demo.headerRow ["Date"; "Cause Title"; "Date of Order"]] "date" 2).
  split.
  - exists "Date of Order". split; reflexivity.
  - intros j h Hj Hl. apply lookup_lt_Some in Hl. cbn in Hl. lia.
Defined.

(** Without retries the flaky year fails at both concurrency levels. *)
Lemma paths_agree_without_retries_witness :
  outcome "out" 2016
    <$> main demo.lib flaky 0 2 "out" 1 1 (fun _ => 1%Z) [2016%Z] demo.start []
  = outcome "out" 2016
      <$> main demo.lib flaky 0 2 "out" 2 1 (fun _ => 1%Z) [2016%Z] demo.start [].
Proof.
  apply (paths_agree_without_retries demo.lib flaky 0 2 "out" 1 2 1 (fun _ => 1%Z)
           [2016%Z] demo.start [] 2016); lia.
Defined.

(** * The records of a page *)

Section RecordFacts.
Context (lib : Library).

(** A row read as data adds its record when it has a cell and the record
    is kept, and nothing otherwise. *)
Lemma tableRow_kept base hm s js :
  tableRow lib base hm false 0 s js
  = js ++ (if hasCells s && kept (rowJudgment lib base hm s)
           then [rowJudgment lib base hm s] else []).
Proof.
  unfold tableRow, hasCells, kept. cbn [Nat.eqb andb].
  destruct (Nat.ltb_spec (length (row_td s)) 1), (Nat.leb_spec 1 (length (row_td s)));
    try lia; cbn [andb].
  - by rewrite app_nil_r.
  - destruct (_ || _); [done|by rewrite app_nil_r].
Qed.

Lemma foldl_tableRow base hm rows : forall js,
  foldl (fun js s => tableRow lib base hm false 0 s js) js rows
  = js ++ List.filter kept (rowJudgment lib base hm <$> List.filter hasCells rows).
Proof.
  induction rows as [|s rows IH]; intros js; cbn [foldl List.filter].
  - by rewrite app_nil_r.
  - rewrite IH, tableRow_kept. destruct (hasCells s); cbn [andb fmap list_fmap List.filter].
    + destruct (kept _); by rewrite <- app_assoc.
    + by rewrite app_nil_r.
Qed.

Lemma Each_tableRow base hm hasHeader rows :
  Each (tableRow lib base hm hasHeader) rows []
  = List.filter kept (rowJudgment lib base hm <$> List.filter hasCells (dataRows rows hasHeader)).
Proof.
  unfold Each, dataRows. destruct rows as [|r0 rows]; [by destruct hasHeader|].
  cbn [Each_from]. rewrite Each_from_tableRow, foldl_tableRow.
  destruct hasHeader; cbn [tail].
  - done.
  - rewrite tableRow_kept. cbn [app List.filter].
    destruct (hasCells r0); cbn [andb fmap list_fmap List.filter]; [|done].
    by destruct (kept _).
Qed.

(** The test of [sel.Length() > 0] apart, a page is read row by row. *)
Lemma extract_Each base doc :
  extract lib base doc
  = Each (tableRow lib base (header lib (concat (locate doc))).1
            (header lib (concat (locate doc))).2)
         (concat (locate doc)) [].
Proof.
  unfold extract. destruct (locate doc) as [|t sel]; [done|].
  cbn [length Nat.ltb Nat.leb]. by destruct (header lib (concat (t :: sel))).
Qed.

Lemma extract_rows base doc :
  extract lib base doc
  = List.filter kept
      (rowJudgment lib base (header lib (concat (locate doc))).1
         <$> List.filter hasCells
               (dataRows (concat (locate doc)) (header lib (concat (locate doc))).2)).
Proof.
  rewrite extract_Each. apply Each_tableRow.
Qed.

(** X4: the records of a page are those of the rows read as data, in the
    order of the rows and one per row at most: of these rows (all of them,
    or all but row 0 under a header) the ones with a cell are read, and the
    records with a field that is not empty are kept. *)
Theorem extract_in_row_order (base : URL lib) (doc : Document) :
  let rows := concat (locate doc) in
  let headerMap := (header lib rows).1 in
  let hasHeader := (header lib rows).2 in
  extract lib base doc
  = List.filter kept
      (rowJudgment lib base headerMap <$> List.filter hasCells (dataRows rows hasHeader))
  /\ length (extract lib base doc) <= length (dataRows rows hasHeader).
Proof.
  cbn zeta. split; [apply extract_rows|]. rewrite extract_rows.
  etrans; [apply List.filter_length_le|]. rewrite length_fmap. apply List.filter_length_le.
Qed.

Lemma TrimSpace_empty : strings.TrimSpace EmptyString = EmptyString.
Proof. reflexivity. Qed.

Lemma readBy_isTrimmed hm cols key pos : isTrimmed (readBy hm cols key pos).
Proof.
  unfold readBy, isTrimmed.
  repeat case_match; try apply strings_facts.TrimSpace_idem; done.
Qed.

(** X5: every record of a page has a field that is not empty, and its date,
    cause, subject and summary carry no white space around them. *)
Theorem extract_records_are_kept_and_trimmed (base : URL lib) (doc : Document) :
  Forall (fun j => someField j
                   /\ isTrimmed (DateOfJudgment j) /\ isTrimmed (CauseTitleCaseNo j)
                   /\ isTrimmed (Subject j) /\ isTrimmed (JudgmentSummary j))
         (extract lib base doc).
Proof.
  rewrite extract_rows. apply List.Forall_forall. intros j Hj.
  apply filter_In in Hj as [Hj Hkept]. apply keeps_someField in Hkept.
  split; [done|]. apply in_map_iff in Hj as (s & <- & _).
  cbn [rowJudgment DateOfJudgment CauseTitleCaseNo Subject JudgmentSummary].
  split_and!; apply readBy_isTrimmed.
Qed.

(** X6: one table is read and no other: the first table under the landmark
    class when there is one, else the first table of the document; a
    document without a table gives no record. *)
Theorem extract_reads_one_table (base : URL lib) (doc : Document) :
  extract lib base doc
  = match landmark_tables doc, all_tables doc with
    | t :: _, _ | [], t :: _ =>
      extract lib base {| landmark_tables := [t]; all_tables := [] |}
    | [], [] => []
    end.
Proof.
  destruct doc as [[|t ts] [|t' ts']]; unfold extract, locate, First; cbn; done.
Qed.

Lemma readBy_agree hm1 hm2 cols key pos :
  hm1 !! key = hm2 !! key -> readBy hm1 cols key pos = readBy hm2 cols key pos.
Proof. unfold readBy. by intros ->. Qed.

(** X7: the index that the header loop records for the role pdf is never
    read: a row gives the same record, and the row loop the same records,
    whatever the header map holds for pdf. *)
Theorem pdf_header_is_never_read (base : URL lib) (headerMap : gmap string nat)
    (idx : nat) (hasHeader : bool) (i : nat) (s : Row) (judgments : list Judgment) :
  rowJudgment lib base (<["pdf" := idx]> headerMap) s = rowJudgment lib base headerMap s
  /\ rowJudgment lib base (delete "pdf" headerMap) s = rowJudgment lib base headerMap s
  /\ tableRow lib base (<["pdf" := idx]> headerMap) hasHeader i s judgments
     = tableRow lib base headerMap hasHeader i s judgments.
Proof.
  assert (rowJudgment lib base (<["pdf" := idx]> headerMap) s
          = rowJudgment lib base headerMap s) as E.
  { unfold rowJudgment. f_equal; apply readBy_agree; by rewrite lookup_insert_ne. }
  split_and!; [done| |].
  - unfold rowJudgment. f_equal; apply readBy_agree; by rewrite lookup_delete_ne.
  - unfold tableRow. by rewrite E.
Qed.

Lemma filter_kept_nil {A} (f : A -> Judgment) (rows : list A) (p : A -> bool) :
  List.filter kept (f <$> List.filter p rows) = []
  <-> Forall (fun s => p s && kept (f s) = false) rows.
Proof.
  induction rows as [|s rows IH]; cbn [List.filter fmap list_fmap].
  - split; [constructor|done].
  - rewrite Forall_cons, <- IH. destruct (p s); cbn [andb fmap list_fmap List.filter].
    + destruct (kept (f s)); [split; [done|by intros []]|tauto].
    + tauto.
Qed.

(** X8: once the page is fetched and parsed, the attempt fails for want of
    judgments exactly when no row read as data has both a cell and a field
    that is not empty; so it does when the document has no table. *)
Theorem no_record_is_a_failure (os : OS lib) (year : Z) (outDir : string) (w : World)
    (resp : Response lib) (doc : Document) :
  (2016 <= year <= 2025)%Z ->
  Get os (pageURL year) = inl resp -> StatusCode resp = 200%Z ->
  NewDocumentFromReader lib (Body resp) = Some doc ->
  let rows := concat (locate doc) in
  let headerMap := (header lib rows).1 in
  let hasHeader := (header lib rows).2 in
  ((ScrapeYear lib os year outDir w).1 = Some (errNoJudgments (pageURL year))
   <-> Forall (fun s => hasCells s && kept (rowJudgment lib (RequestURL resp) headerMap s)
                        = false)
              (dataRows rows hasHeader))
  /\ (locate doc = [] ->
      (ScrapeYear lib os year outDir w).1 = Some (errNoJudgments (pageURL year))).
Proof.
  intros Hy Hget Hs Hdoc rows headerMap hasHeader.
  assert ((ScrapeYear lib os year outDir w).1 = Some (errNoJudgments (pageURL year))
          <-> extract lib (RequestURL resp) doc = []) as Hiff.
  { unfold ScrapeYear.
    assert ((year <? 2016)%Z || (year >? 2025)%Z = false) as -> by lia.
    rewrite Hget, Hs, Hdoc. cbn [Z.eqb Pos.eqb negb].
    destruct (extract lib (RequestURL resp) doc) as [|j js]; cbn [length Nat.eqb]; [done|].
    repeat case_match; done. }
  rewrite Hiff, extract_rows. split; [apply filter_kept_nil|].
  intros E. apply filter_kept_nil. unfold rows, dataRows. rewrite E. cbn.
  by destruct (hasHeader); constructor.
Qed.

(** X3: a page whose table has a header row (a header cell with text in
    row 0) and after it no row with a cell gives no record, and the attempt
    for a year in range, once the page is fetched and parsed, fails for want
    of judgments. *)
Theorem header_only_table_fails (os : OS lib) (year : Z) (outDir : string) (w : World)
    (resp : Response lib) (doc : Document) (r0 : Row) (rest : list Row) :
  (2016 <= year <= 2025)%Z ->
  Get os (pageURL year) = inl resp -> StatusCode resp = 200%Z ->
  NewDocumentFromReader lib (Body resp) = Some doc ->
  concat (locate doc) = r0 :: rest ->
  (exists h, h ∈ row_th r0 /\ strings.TrimSpace h <> EmptyString) ->
  Forall (fun s => row_td s = []) rest ->
  extract lib (RequestURL resp) doc = []
  /\ (ScrapeYear lib os year outDir w).1 = Some (errNoJudgments (pageURL year)).
Proof.
  intros Hy Hget Hs Hdoc Hrows (h & Hh & Hne) Hrest.
  assert (extract lib (RequestURL resp) doc = []) as Hnone.
  { rewrite extract_rows, Hrows.
    assert ((header lib (r0 :: rest)).2 = true) as ->.
    { unfold header. apply hasHeader_spec. exists h. split; [|done].
      apply header_cells. by exists r0. }
    cbn [dataRows tail]. apply filter_kept_nil, Forall_forall. intros s Hin.
    rewrite Forall_forall in Hrest. unfold hasCells. by rewrite (Hrest s Hin). }
  split; [done|].
  by rewrite (ScrapeYear_zero_records lib os year outDir w resp doc).
Qed.

(** ** White space around the texts *)

Lemma Each_from_fmap {A St} (f : nat -> A -> St -> St) (g : A -> A) :
  (forall i x st, f i (g x) st = f i x st) ->
  forall l i st, Each_from f i (g <$> l) st = Each_from f i l st.
Proof.
  intros Hf. induction l as [|x l IH]; intros i st; cbn [fmap list_fmap Each_from]; [done|].
  by rewrite Hf, <- IH.
Qed.

Lemma EachWithBreak_from_fmap {A St} (f : nat -> A -> St -> St * bool) (g : A -> A) :
  (forall i x st, f i (g x) st = f i x st) ->
  forall l i st, EachWithBreak_from f i (g <$> l) st = EachWithBreak_from f i l st.
Proof.
  intros Hf. induction l as [|x l IH]; intros i st;
    cbn [fmap list_fmap EachWithBreak_from]; [done|].
  rewrite Hf. destruct (f i x st) as [st' [|]]; [|done]. apply IH.
Qed.

Lemma EqText_TrimSpace cols idx :
  EqText (strings.TrimSpace <$> cols) idx = strings.TrimSpace (EqText cols idx).
Proof. unfold EqText. rewrite list_lookup_fmap. destruct (cols !! idx); reflexivity. Qed.

Lemma serialShift_TrimSpace cols :
  serialShift (strings.TrimSpace <$> cols) = serialShift cols.
Proof.
  unfold serialShift.
  by rewrite length_fmap, EqText_TrimSpace, strings_facts.TrimSpace_idem.
Qed.

Lemma readBy_TrimSpace hm cols key pos :
  readBy hm (strings.TrimSpace <$> cols) key pos = readBy hm cols key pos.
Proof.
  unfold readBy. rewrite length_fmap.
  destruct (hm !! key); by rewrite !EqText_TrimSpace, !strings_facts.TrimSpace_idem.
Qed.

Lemma resolve_TrimSpace base href :
  resolve lib base (strings.TrimSpace href) = resolve lib base href.
Proof. unfold resolve. by rewrite strings_facts.TrimSpace_idem. Qed.

Lemma anchor_TrimSpace base i a pdf :
  anchor lib base i (option_map strings.TrimSpace a) pdf = anchor lib base i a pdf.
Proof.
  destruct a as [href|]; [|done]. cbn [option_map anchor].
  by rewrite strings_facts.TrimSpace_idem, resolve_TrimSpace.
Qed.

Lemma headerCell_TrimSpace i h st :
  headerCell lib i (strings.TrimSpace h) st = headerCell lib i h st.
Proof. destruct st as [hm hh]. unfold headerCell. by rewrite strings_facts.TrimSpace_idem. Qed.

Lemma rowJudgment_trimRow base hm s :
  rowJudgment lib base hm (trimRow s) = rowJudgment lib base hm s.
Proof.
  unfold rowJudgment, trimRow, EachWithBreak. cbn [row_td row_a].
  rewrite serialShift_TrimSpace, !readBy_TrimSpace.
  by rewrite (EachWithBreak_from_fmap _ _ (anchor_TrimSpace base)).
Qed.

Lemma tableRow_trimRow base hm hasHeader i s js :
  tableRow lib base hm hasHeader i (trimRow s) js = tableRow lib base hm hasHeader i s js.
Proof.
  unfold tableRow. rewrite rowJudgment_trimRow. unfold trimRow at 1. cbn [row_td].
  by rewrite length_fmap.
Qed.

Lemma header_trimRow rows : header lib (trimRow <$> rows) = header lib rows.
Proof.
  unfold header, Each, First. destruct rows as [|r0 rows]; [done|].
  cbn [fmap list_fmap take concat trimRow row_th]. rewrite !app_nil_r.
  apply Each_from_fmap, headerCell_TrimSpace.
Qed.

Lemma concat_trimRow (sel : list Table) :
  concat (fmap (M := list) trimRow <$> sel) = trimRow <$> concat sel.
Proof.
  induction sel as [|t sel IH]; [done|]. cbn [fmap list_fmap concat].
  by rewrite fmap_app, <- IH.
Qed.

Lemma locate_trimDocument doc :
  locate (trimDocument doc) = fmap (M := list) trimRow <$> locate doc.
Proof.
  unfold locate, trimDocument, First. cbn [landmark_tables all_tables].
  rewrite <- !fmap_take, length_fmap. by destruct (length _ =? 0).
Qed.

(** X9: the white space around the text of a cell, of a header cell and of
    an href never shows in the records: a page gives the same records as
    the page with every such text trimmed. *)
Theorem extract_ignores_surrounding_space (base : URL lib) (doc : Document) :
  extract lib base (trimDocument doc) = extract lib base doc.
Proof.
  rewrite !extract_Each, locate_trimDocument, concat_trimRow, header_trimRow.
  apply Each_from_fmap. intros i s js. apply tableRow_trimRow.
Qed.

End RecordFacts.

Section HeaderFacts.
Context (lib : Library).

Lemma cellRole_roles h key :
  cellRole lib h = Some key ->
  key = "date" \/ key = "cause" \/ key = "subject" \/ key = "summary" \/ key = "pdf".
Proof.
  unfold cellRole, firstRule, rules. cbn [List.find existsb fst snd].
  repeat (destruct (strings.Contains _ _); cbn [orb fmap option_fmap option_map snd]);
    intros [= <-]; tauto.
Qed.

Lemma cellRole_blank h : strings.TrimSpace h = EmptyString -> cellRole lib h = None.
Proof. unfold cellRole. intros ->. reflexivity. Qed.

Lemma headerMap_blank (ths : list string) :
  (Each (headerCell lib) ths (∅, false)).2 = false ->
  (Each (headerCell lib) ths (∅, false)).1 = ∅.
Proof.
  induction ths as [|x ths IH] using rev_ind; [done|].
  rewrite Each_snoc. destruct (Each _ ths _) as [hm hh].
  rewrite headerCell_rules. cbn [fst snd] in *.
  intros [-> Hx%negb_false_iff]%orb_false_iff.
  apply String.eqb_eq in Hx. rewrite (cellRole_blank x Hx). cbn [assign]. by apply IH.
Qed.

(** X20: the header map holds no key but the five roles and no index but
    that of a header cell of row 0; and without a header (no header cell
    with text) it is empty, so that every field is read by position. *)
Theorem header_map_invariants (rows : list Row) :
  let ths := concat (row_th <$> First rows) in
  (forall key idx,
     (header lib rows).1 !! key = Some idx ->
     (key = "date" \/ key = "cause" \/ key = "subject" \/ key = "summary" \/ key = "pdf")
     /\ idx < length ths)
  /\ ((header lib rows).2 = false -> (header lib rows).1 = ∅).
Proof.
  intros ths. split; [|apply headerMap_blank].
  intros key idx [(h & Hl & Hrole) _]%headerMap_last. split.
  - by apply cellRole_roles in Hrole.
  - by apply lookup_lt_Some in Hl.
Qed.

End HeaderFacts.

(** * What an attempt leaves alone *)

Section DiskFacts.
Context (lib : Library).

Lemma ScrapeYear_fetched (os : OS lib) year outDir w :
  fetched (ScrapeYear lib os year outDir w).2
  = if supported year then pageURL year :: fetched w else fetched w.
Proof.
  unfold ScrapeYear, supported.
  destruct (Z.ltb_spec year 2016), (Z.gtb_spec year 2025), (Z.leb_spec 2016 year),
    (Z.leb_spec year 2025); try lia; cbn [orb andb]; try done.
  repeat case_match; done.
Qed.

(** X10: an attempt for a year changes the output file of no other year,
    removes no file and removes no directory. *)
Theorem ScrapeYear_keeps_the_rest (os : OS lib) (year : Z) (outDir : string) (w : World) :
  let w' := (ScrapeYear lib os year outDir w).2 in
  (forall y, y <> year -> files w' !! outFile outDir y = files w !! outFile outDir y)
  /\ (forall p, is_Some (files w !! p) -> is_Some (files w' !! p))
  /\ dirs w ⊆ dirs w'.
Proof.
  cbn zeta. split_and!.
  - intros y Hy. apply ScrapeYear_other_files. intros E. by apply outFile_inj in E.
  - intros p Hp. unfold ScrapeYear. repeat case_match; cbn; try done;
      rewrite ?lookup_insert_is_Some'; auto.
  - unfold ScrapeYear. repeat case_match; cbn; set_solver.
Qed.

End DiskFacts.

Lemma pageURL_inj y1 y2 : pageURL y1 = pageURL y2 -> y1 = y2.
Proof. unfold pageURL. intros H. apply String.app_inj in H. by apply itoa_inj. Qed.

(** X11: every year has a page and, in an output directory, a file of its
    own: two years share neither. *)
Theorem one_page_and_one_file_per_year (out : string) (y1 y2 : Z) :
  (outFile out y1 = outFile out y2 <-> y1 = y2)
  /\ (pageURL y1 = pageURL y2 <-> y1 = y2).
Proof.
  split; split.
  - apply outFile_inj.
  - by intros ->.
  - apply pageURL_inj.
  - by intros ->.
Qed.

(** * Runs *)

Section RunFacts.
Context (lib : Library) (net : Z -> Z -> OS lib).
Context (retries retryDelay : Z) (out : string).

Local Abbreviation attempts' := (attempts lib net retries retryDelay out).
Local Abbreviation pool' := (pool lib net retries retryDelay out).

(** ** What an attempt does to the disk *)

Lemma leave_leave p c1 c2 fs :
  leave p c2 (leave p c1 fs) = leave p (match c2 with Some _ => c2 | None => c1 end) fs.
Proof. destruct c1, c2; cbn [leave]; by rewrite ?insert_insert_eq. Qed.

Lemma mkdir_mkdir b1 b2 d ds : mkdir b2 d (mkdir b1 d ds) = mkdir (b1 || b2) d ds.
Proof.
  destruct b1, b2; cbn [mkdir orb]; try reflexivity.
  by rewrite (assoc_L (∪)), (idemp_L (∪)).
Qed.

Lemma leave_comm p1 p2 c1 c2 fs :
  p1 <> p2 -> leave p1 c1 (leave p2 c2 fs) = leave p2 c2 (leave p1 c1 fs).
Proof.
  intros Hp. destruct c1, c2; cbn [leave]; try reflexivity. by apply insert_insert_ne.
Qed.

Lemma mkdir_comm b1 b2 d ds : mkdir b1 d (mkdir b2 d ds) = mkdir b2 d (mkdir b1 d ds).
Proof. by destruct b1, b2. Qed.

(** The attempt ends here: it leaves [c] and has made the directory or not. *)
Local Ltac ends_with c made :=
  eexists _, c, made; intros ?; cbn; rewrite ?insert_insert_eq; split_and!; reflexivity.

(** What an attempt returns, leaves in the year's file and makes of the
    directory does not depend on the world it starts from. *)
Lemma ScrapeYear_effect (os : OS lib) year :
  exists err c made, forall w,
    (ScrapeYear lib os year out w).1 = err
    /\ files (ScrapeYear lib os year out w).2 = leave (outFile out year) c (files w)
    /\ dirs (ScrapeYear lib os year out w).2 = mkdir made out (dirs w).
Proof.
  unfold ScrapeYear.
  destruct ((year <? 2016)%Z || (year >? 2025)%Z); [ends_with (@None Content) false|].
  destruct (Get os (pageURL year)) as [resp|e]; [|ends_with (@None Content) false].
  destruct (negb _); [ends_with (@None Content) false|].
  destruct (NewDocumentFromReader lib (Body resp)) as [doc|];
    [|ends_with (@None Content) false].
  destruct (length _ =? 0); [ends_with (@None Content) false|].
  destruct (negb (MkdirAll _ _)); [ends_with (@None Content) false|].
  destruct (negb (Create _ _)); [ends_with (@None Content) true|].
  destruct (Write _ _).
  - ends_with (Some (Complete (extract lib (RequestURL resp) doc))) true.
  - ends_with (Some (Incomplete (extract lib (RequestURL resp) doc))) true.
Qed.

(** So the verdict of an attempt is the same in every world. *)
Lemma ScrapeYear_error (os : OS lib) year w1 w2 :
  (ScrapeYear lib os year out w1).1 = (ScrapeYear lib os year out w2).1.
Proof.
  destruct (ScrapeYear_effect os year) as (err & c & made & H).
  destruct (H w1) as [-> _]. by destruct (H w2) as [-> _].
Qed.

Lemma ScrapeYear_sameDisk (os : OS lib) year w1 w2 :
  sameDisk w1 w2 ->
  sameDisk (ScrapeYear lib os year out w1).2 (ScrapeYear lib os year out w2).2.
Proof.
  intros [Hd Hf]. destruct (ScrapeYear_effect os year) as (err & c & made & H).
  destruct (H w1) as (_ & Hf1 & Hd1). destruct (H w2) as (_ & Hf2 & Hd2).
  split; congruence.
Qed.

(** An attempt made again, on the same terms, leaves the disk as the first did. *)
Lemma ScrapeYear_again (os : OS lib) year w :
  sameDisk (ScrapeYear lib os year out (ScrapeYear lib os year out w).2).2
           (ScrapeYear lib os year out w).2.
Proof.
  destruct (ScrapeYear_effect os year) as (err & c & made & H).
  destruct (H (ScrapeYear lib os year out w).2) as (_ & Hf & Hd).
  destruct (H w) as (_ & Hf' & Hd'). split.
  - rewrite Hd, Hd', mkdir_mkdir. by destruct made.
  - rewrite Hf, Hf', leave_leave. by destruct c.
Qed.

(** ** The sequential path *)

Lemma sequential_log (ys : list Z) :
  forall w0 w log,
    (sequential lib net out ys w log).2
    = log ++ flat_map (fun y => [ScrapingYear y out; verdict lib (net y 1%Z) y out w0]) ys
    /\ fetched (sequential lib net out ys w log).1
       = rev (pageURL <$> List.filter supported ys) ++ fetched w.
Proof.
  induction ys as [|y ys IH]; intros w0 w log; cbn [sequential flat_map].
  - by rewrite app_nil_r.
  - unfold verdict at 1. rewrite (ScrapeYear_error (net y 1%Z) y w0 w).
    pose proof (ScrapeYear_fetched lib (net y 1%Z) y out w) as Hf.
    destruct (ScrapeYear lib (net y 1%Z) y out w) as [[e|] w1]; cbn [fst snd] in *.
    all: destruct (IH w0 w1 ((log ++ [ScrapingYear y out]) ++ [ScrapeFailed y e]))
           as [-> ->] || destruct (IH w0 w1 ((log ++ [ScrapingYear y out]) ++ [DoneYear y]))
           as [-> ->].
    all: split; [by rewrite <- !app_assoc|].
    all: rewrite Hf; cbn [List.filter]; destruct (supported y); [|done].
    all: cbn [fmap list_fmap rev]; by rewrite <- app_assoc.
Qed.

(** X12: the sequential path logs, for every year of the list in the
    order of the list, that it scrapes the year and then the verdict of the
    one attempt it makes at it: failed, with the error of the attempt, or
    done; a failure stops nothing, and nothing else is logged.  It calls
    [http.Get] for the page of every year from 2016 to 2025, once, in that
    order, and for no other year. *)
Theorem sequential_one_call_per_year (ys : list Z) (w : World) (log : list Event) :
  (sequential lib net out ys w log).2
  = log ++ flat_map (fun y => [ScrapingYear y out; verdict lib (net y 1%Z) y out w]) ys
  /\ fetched (sequential lib net out ys w log).1
     = rev (pageURL <$> List.filter supported ys) ++ fetched w.
Proof. apply sequential_log. Qed.

(** ** The jobs of the pool *)

(** A job followed from the counter [a] on, with [n] more attempts allowed
    after the next: it ends, done or given up. *)
Lemma attempts_end (n : nat) :
  forall fuel id year a w log,
    (0 <= a)%Z -> (retries <= a + Z.of_nat n)%Z -> (a + Z.of_nat n < maxInt)%Z -> n < fuel ->
    exists w' events,
      attempts' fuel id year a w log = Some (w', log ++ events)
      /\ 1 <= length (List.filter isScraping events) <= S n
      /\ ((List.filter endsJob events = [DoneWorker id year]
           /\ last events = Some (DoneWorker id year))
          \/ exists k, List.filter endsJob events = [GivingUp id year k]
                       /\ last events = Some (GivingUp id year k))
      /\ List.filter isQueueing events = [].
Proof.
  unfold maxInt.
  induction n as [|n IH]; intros fuel id year a w log Ha Hn Hmax Hfuel;
    (destruct fuel as [|fuel]; [lia|]); cbn [attempts].
  all: rewrite wrap_small by lia.
  all: destruct (ScrapeYear lib (net year (a + 1)) year out w) as [[e|] w1].
  all: try (exists w1, [Scraping id year (a + 1); DoneWorker id year];
            split_and!; [by rewrite <- !app_assoc|cbn; lia..|left; done|done]).
  - assert ((a + 1 >? retries)%Z = true) as -> by lia.
    exists w1, [Scraping id year (a + 1); ErrorScraping id year e; GivingUp id year (a + 1)].
    split_and!; [by rewrite <- !app_assoc|cbn; lia..| |done].
    right. by exists (a + 1)%Z.
  - destruct (Z.gtb_spec (a + 1) retries).
    + exists w1, [Scraping id year (a + 1); ErrorScraping id year e; GivingUp id year (a + 1)].
      split_and!; [by rewrite <- !app_assoc|cbn; lia..| |done].
      right. by exists (a + 1)%Z.
    + destruct (IH fuel id year (a + 1)%Z w1
                  (((log ++ [Scraping id year (a + 1)]) ++ [ErrorScraping id year e])
                     ++ [Sleep (wrap (retryDelay * Second))]))
        as (w' & events & Hrun & Hlen & Hend & Hq); try lia.
      exists w', ([Scraping id year (a + 1); ErrorScraping id year e;
                   Sleep (wrap (retryDelay * Second))] ++ events).
      split_and!.
      * rewrite Hrun. by rewrite <- !app_assoc.
      * rewrite List.filter_app, length_app. cbn. lia.
      * rewrite List.filter_app, length_app. cbn. lia.
      * rewrite List.filter_app, last_app. cbn [List.filter endsJob app].
        destruct Hend as [[-> ->]|(k & -> & ->)]; [left|right; exists k]; done.
      * rewrite List.filter_app, Hq. done.
Qed.


Lemma pool_end (ys : list Z) :
  forall fuel deliver k w log,
    (retries < maxInt)%Z -> Z.to_nat retries < fuel ->
    exists w' events,
      pool' fuel deliver k ys w log = Some (w', log ++ events)
      /\ List.filter isQueueing events = Queueing <$> ys
      /\ length (List.filter endsJob events) = length ys
      /\ length (List.filter isScraping events) <= length ys * S (Z.to_nat retries).
Proof.
  induction ys as [|y ys IH]; intros fuel deliver k w log HR Hfuel; cbn [pool worker].
  - exists w, []. by rewrite app_nil_r.
  - destruct (attempts_end (Z.to_nat retries) fuel (deliver k) y 0 w (log ++ [Queueing y]))
      as (w1 & ev1 & -> & Hlen & Hend & Hq); unfold maxInt in *; try lia.
    destruct (IH fuel deliver (S k) w1 ((log ++ [Queueing y]) ++ ev1) HR Hfuel)
      as (w' & ev2 & -> & Hq2 & He2 & Hs2).
    exists w', ([Queueing y] ++ ev1 ++ ev2). split_and!.
    + by rewrite <- !app_assoc.
    + rewrite !List.filter_app, Hq, Hq2. done.
    + rewrite !List.filter_app, !length_app, He2. cbn.
      destruct Hend as [[-> _]|(j & -> & _)]; done.
    + rewrite !List.filter_app, !length_app. cbn. lia.
Qed.








(** ** The first success *)

Lemma ScrapeYear_done (os : OS lib) year w :
  (ScrapeYear lib os year out w).1 = None ->
  exists js, js <> []
    /\ files (ScrapeYear lib os year out w).2 = <[outFile out year := Complete js]> (files w).
Proof.
  unfold ScrapeYear. repeat case_match; cbn; try done. intros _.
  eexists. split; [|by rewrite insert_insert_eq].
  intros E. by rewrite E in *.
Qed.

(** A job whose attempts fail up to one that succeeds, followed from the
    counter [a] on: [n] attempts are each followed by a sleep, and one
    more ends the job. *)
Lemma attempts_until_done (n : nat) :
  forall fuel id year a w log,
    (0 <= a)%Z -> (a + Z.of_nat n <= retries)%Z -> (retries < maxInt)%Z ->
    (- 2 ^ 63 <= retryDelay * Second < 2 ^ 63)%Z ->
    (forall j w, (a < j <= a + Z.of_nat n)%Z ->
       (ScrapeYear lib (net year j) year out w).1 <> None) ->
    (forall w, (ScrapeYear lib (net year (a + Z.of_nat n + 1)) year out w).1 = None) ->
    n < fuel ->
    exists w' events,
      attempts' fuel id year a w log = Some (w', log ++ events)
      /\ List.filter timing events
         = flat_map (fun k => [Scraping id year k; Sleep (retryDelay * Second)])
                    (seqZ (a + 1) (Z.of_nat n))
           ++ [Scraping id year (a + Z.of_nat n + 1)]
      /\ last events = Some (DoneWorker id year)
      /\ exists js, js <> [] /\ files w' !! outFile out year = Some (Complete js).
Proof.
  unfold maxInt.
  induction n as [|n IH]; intros fuel id year a w log Ha Hn Hmax Hd Hfail Hok Hfuel;
    (destruct fuel as [|fuel]; [lia|]); cbn [attempts].
  all: rewrite wrap_small by lia.
  - replace (a + Z.of_nat 0 + 1)%Z with (a + 1)%Z in * by lia.
    pose proof (Hok w) as H1. destruct (ScrapeYear_done (net year (a + 1)) year w H1)
      as (js & Hjs & Hfiles).
    destruct (ScrapeYear lib (net year (a + 1)) year out w) as [err w1].
    cbn [fst snd] in *. subst err.
    exists w1, [Scraping id year (a + 1); DoneWorker id year].
    split_and!; [by rewrite <- !app_assoc|done|done|].
    exists js. split; [done|]. by rewrite Hfiles, lookup_insert_eq.
  - pose proof (Hfail (a + 1)%Z w ltac:(lia)) as Herr.
    destruct (ScrapeYear lib (net year (a + 1)) year out w) as [[e|] w1]; [|done].
    assert ((a + 1 >? retries)%Z = false) as -> by lia.
    rewrite wrap_small by lia.
    destruct (IH fuel id year (a + 1)%Z w1
                (((log ++ [Scraping id year (a + 1)]) ++ [ErrorScraping id year e])
                   ++ [Sleep (retryDelay * Second)]))
      as (w' & events & Hrun & Htiming & Hlast & Hfile); try lia; try done.
    { intros j w0 Hj. apply Hfail. lia. }
    { intros w0. replace (a + 1 + Z.of_nat n + 1)%Z with (a + Z.of_nat (S n) + 1)%Z by lia.
      apply Hok. }
    exists w', ([Scraping id year (a + 1); ErrorScraping id year e;
                 Sleep (retryDelay * Second)] ++ events).
    split_and!.
    + rewrite Hrun. by rewrite <- !app_assoc.
    + rewrite List.filter_app, Htiming. cbn [List.filter timing].
      rewrite (seqZ_cons (a + 1)) by lia. cbn [flat_map].
      replace (Z.pred (Z.of_nat (S n))) with (Z.of_nat n) by lia.
      replace (Z.succ (a + 1)) with (a + 1 + 1)%Z by lia.
      replace (a + 1 + Z.of_nat n + 1)%Z with (a + Z.of_nat (S n) + 1)%Z by lia. done.
    + rewrite last_app, Hlast. done.
    + done.
Qed.

(** X15: the retry loop stops at the first attempt that succeeds: when the
    attempts before the [k]-th fail and the [k]-th succeeds, with [k] no
    more than 1 + R, the worker makes the attempts 1 to [k] and no other,
    sleeps D seconds between every two consecutive ones, reports the year
    done, and leaves the whole of a non-empty set of records in its file. *)
Theorem first_success_ends_the_job (fuel : nat) (id year k : Z) (w : World)
    (log : list Event) :
  (1 <= k <= retries + 1)%Z -> (retries < maxInt)%Z ->
  (- 2 ^ 63 <= retryDelay * Second < 2 ^ 63)%Z ->
  (forall j w, (1 <= j < k)%Z -> (ScrapeYear lib (net year j) year out w).1 <> None) ->
  (forall w, (ScrapeYear lib (net year k) year out w).1 = None) ->
  Z.to_nat k <= fuel ->
  exists w' events,
    attempts' fuel id year 0 w log = Some (w', log ++ events)
    /\ List.filter timing events = retrySchedule id year (k - 1) (retryDelay * Second)
    /\ length (List.filter isScraping events) = Z.to_nat k
    /\ last events = Some (DoneWorker id year)
    /\ exists js, js <> [] /\ files w' !! outFile out year = Some (Complete js).
Proof.
  intros Hk HR HD Hfail Hok Hfuel.
  destruct (attempts_until_done (Z.to_nat (k - 1)) fuel id year 0 w log)
    as (w' & events & Hrun & Htiming & Hlast & Hfile); try lia; try done.
  { intros j w0 Hj. apply Hfail. lia. }
  { intros w0. replace (0 + Z.of_nat (Z.to_nat (k - 1)) + 1)%Z with k by lia. apply Hok. }
  rewrite Z2Nat.id in Htiming by lia. change (0 + 1)%Z with 1%Z in Htiming.
  replace (0 + (k - 1) + 1)%Z with (k - 1 + 1)%Z in Htiming by lia.
  exists w', events. split_and!; try done.
  assert (List.filter isScraping events = List.filter isScraping (List.filter timing events))
    as ->.
  { clear. induction events as [|[] events IH]; cbn; congruence. }
  rewrite Htiming, List.filter_app, length_app. cbn [List.filter isScraping length].
  assert (forall l d, length (List.filter isScraping
            (flat_map (fun k => [Scraping id year k; Sleep d]) l)) = length l) as ->.
  { clear. intros l d. induction l as [|x l IH]; cbn; [done|]. by rewrite IH. }
  rewrite length_seqZ. lia.
Qed.

(** ** A year out of range *)

Lemma ScrapeYear_unsupported (os : OS lib) year w :
  (year < 2016 \/ 2025 < year)%Z -> ScrapeYear lib os year out w = (Some errYearRange, w).
Proof.
  intros H. unfold ScrapeYear.
  assert ((year <? 2016)%Z || (year >? 2025)%Z = true) as -> by lia. done.
Qed.

Lemma attempts_unsupported (fuel : nat) :
  forall id year a w log r,
    (year < 2016 \/ 2025 < year)%Z ->
    attempts' fuel id year a w log = Some r -> r.1 = w.
Proof.
  induction fuel as [|fuel IH]; intros id year a w log r Hy; cbn [attempts]; [done|].
  rewrite ScrapeYear_unsupported by done.
  destruct (_ >? _)%Z; [by intros [= <-]|]. by apply IH.
Qed.

(** X16: a year out of the range 2016..2025 is retried like any other
    failure: with a retry count R the worker makes 1 + R attempts, D seconds
    apart, each refused at once, and then gives the year up; nothing is
    requested, and no directory or file is touched. *)
Theorem unsupported_year_is_retried (fuel : nat) (id year : Z) (w : World)
    (log : list Event) :
  (year < 2016 \/ 2025 < year)%Z ->
  (0 <= retries < maxInt)%Z -> (- 2 ^ 63 <= retryDelay * Second < 2 ^ 63)%Z ->
  Z.to_nat retries < fuel ->
  exists events,
    attempts' fuel id year 0 w log = Some (w, log ++ events)
    /\ List.filter timing events = retrySchedule id year retries (retryDelay * Second)
    /\ last events = Some (GivingUp id year (retries + 1)).
Proof.
  intros Hy HR HD Hfuel.
  destruct (attempts_all_fail lib net retries retryDelay out (Z.to_nat retries)
              fuel id year 0 w log)
    as (w' & events & Hrun & Htiming & Hlast & _); try lia; try done.
  { intros k w0 _. by rewrite ScrapeYear_unsupported. }
  pose proof (attempts_unsupported _ _ _ _ _ _ _ Hy Hrun) as E. cbn in E. subst w'.
  rewrite Z2Nat.id in Htiming by lia.
  exists events. done.
Qed.

(** ** The order of the jobs *)

(** So for a job: whether its retry loop ends, and what it then leaves,
    depends on the year alone. *)
Lemma attempts_effect (fuel : nat) :
  forall year a,
    (forall id w log, attempts' fuel id year a w log = None)
    \/ exists c made, forall id w log,
         exists w' log',
           attempts' fuel id year a w log = Some (w', log')
           /\ files w' = leave (outFile out year) c (files w)
           /\ dirs w' = mkdir made out (dirs w).
Proof.
  induction fuel as [|fuel IH]; intros year a; cbn [attempts]; [by left|].
  destruct (ScrapeYear_effect (net year (wrap (a + 1))) year) as (err & c & made & Hs).
  destruct err as [e|].
  - destruct (wrap (a + 1) >? retries)%Z.
    + right. exists c, made. intros id w log. destruct (Hs w) as (H1 & H2 & H3).
      destruct (ScrapeYear lib _ year out w) as [err w1]. cbn [fst snd] in *. subst err.
      eauto.
    + destruct (IH year (wrap (a + 1))) as [Hnone|(c' & made' & Hsome)].
      * left. intros id w log. destruct (Hs w) as (H1 & _).
        destruct (ScrapeYear lib _ year out w) as [err w1]. cbn [fst snd] in *. subst err.
        apply Hnone.
      * right. exists (match c' with Some _ => c' | None => c end), (made || made').
        intros id w log.
        destruct (Hs w) as (H1 & H2 & H3).
        destruct (ScrapeYear lib _ year out w) as [err w1]. cbn [fst snd] in *. subst err.
        destruct (Hsome id w1 (((log ++ [Scraping id year (wrap (a + 1))])
                                  ++ [ErrorScraping id year e])
                                 ++ [Sleep (wrap (retryDelay * Second))]))
          as (w' & log' & -> & Hf & Hd).
        exists w', log'. split_and!; [done| |].
        -- by rewrite Hf, H2, leave_leave.
        -- by rewrite Hd, H3, mkdir_mkdir.
  - right. exists c, made. intros id w log. destruct (Hs w) as (H1 & H2 & H3).
    destruct (ScrapeYear lib _ year out w) as [err w1]. cbn [fst snd] in *. subst err.
    eauto.
Qed.

(** The pool on one list of years, from two worlds with the same disk. *)
Lemma pool_sameDisk (ys : list Z) :
  forall fuel d1 d2 k1 k2 w1 w2 log1 log2 r1,
    sameDisk w1 w2 -> pool' fuel d1 k1 ys w1 log1 = Some r1 ->
    exists r2, pool' fuel d2 k2 ys w2 log2 = Some r2 /\ sameDisk r1.1 r2.1.
Proof.
  induction ys as [|y ys IH]; intros fuel d1 d2 k1 k2 w1 w2 log1 log2 r1 [Hd Hf];
    cbn [pool worker].
  - intros [= <-]. by eexists.
  - destruct (attempts_effect fuel y 0) as [Hnone|(c & made & Hsome)].
    { by rewrite Hnone. }
    destruct (Hsome (d1 k1) w1 (log1 ++ [Queueing y])) as (w1' & l1' & -> & Hf1 & Hd1).
    destruct (Hsome (d2 k2) w2 (log2 ++ [Queueing y])) as (w2' & l2' & -> & Hf2 & Hd2).
    apply IH. split; congruence.
Qed.

Lemma pool_sameDisk_Permutation (ys1 ys2 : list Z) :
  ys1 ≡ₚ ys2 ->
  forall fuel d1 d2 k1 k2 w1 w2 log1 log2 r1,
    sameDisk w1 w2 -> pool' fuel d1 k1 ys1 w1 log1 = Some r1 ->
    exists r2, pool' fuel d2 k2 ys2 w2 log2 = Some r2 /\ sameDisk r1.1 r2.1.
Proof.
  induction 1 as [|y ys1 ys2 _ IH|x y ys|ys1 ys2 ys3 _ IH1 _ IH2];
    intros fuel d1 d2 k1 k2 w1 w2 log1 log2 r1 Hw.
  - by apply pool_sameDisk.
  - destruct Hw as [Hd Hf]. cbn [pool worker].
    destruct (attempts_effect fuel y 0) as [Hnone|(c & made & Hsome)].
    { by rewrite Hnone. }
    destruct (Hsome (d1 k1) w1 (log1 ++ [Queueing y])) as (w1' & l1' & -> & Hf1 & Hd1).
    destruct (Hsome (d2 k2) w2 (log2 ++ [Queueing y])) as (w2' & l2' & -> & Hf2 & Hd2).
    apply IH. split; congruence.
  - destruct (decide (x = y)) as [->|Hne]; [by apply pool_sameDisk|].
    destruct Hw as [Hd Hf]. cbn [pool worker].
    destruct (attempts_effect fuel y 0) as [Hnone|(cy & my & Hy)].
    { by rewrite Hnone. }
    destruct (attempts_effect fuel x 0) as [Hnone|(cx & mx & Hx)].
    { destruct (Hy (d1 k1) w1 (log1 ++ [Queueing y])) as (w1' & l1' & -> & _).
      by rewrite Hnone. }
    destruct (Hy (d1 k1) w1 (log1 ++ [Queueing y])) as (wa & la & -> & Hfa & Hda).
    destruct (Hx (d1 (S k1)) wa (la ++ [Queueing x])) as (wb & lb & -> & Hfb & Hdb).
    destruct (Hx (d2 k2) w2 (log2 ++ [Queueing x])) as (wc & lc & -> & Hfc & Hdc).
    destruct (Hy (d2 (S k2)) wc (lc ++ [Queueing y])) as (we & le & -> & Hfe & Hde).
    apply pool_sameDisk. split.
    + rewrite Hdb, Hda, Hde, Hdc, Hd. apply mkdir_comm.
    + rewrite Hfb, Hfa, Hfe, Hfc, Hf. apply leave_comm. intros E. by apply outFile_inj in E.
  - intros Hrun.
    destruct (IH1 fuel d1 d1 k1 k1 w1 w1 log1 log1 r1 ltac:(done) Hrun) as (r' & Hr' & Hs1).
    destruct (IH2 fuel d1 d2 k1 k2 w1 w2 log1 log2 r' Hw Hr') as (r2 & Hr2 & Hs2).
    exists r2. split; [done|]. destruct Hs1, Hs2. split; congruence.
Qed.

(** X17: given what every attempt at every year meets, the directories made
    and the files written by the pool depend neither on the order in which
    the years are taken nor on the worker that takes each: a run on the
    same years in another order, with other workers, ends as well and
    leaves the same disk. *)
Theorem pool_order_is_irrelevant (fuel : nat) (deliver1 deliver2 : nat -> Z)
    (ys1 ys2 : list Z) (w : World) (log1 log2 : list Event) (w1 : World)
    (l1 : list Event) :
  ys1 ≡ₚ ys2 ->
  pool' fuel deliver1 0 ys1 w log1 = Some (w1, l1) ->
  exists w2 l2,
    pool' fuel deliver2 0 ys2 w log2 = Some (w2, l2)
    /\ dirs w2 = dirs w1 /\ files w2 = files w1.
Proof.
  intros Hp Hrun.
  destruct (pool_sameDisk_Permutation ys1 ys2 Hp fuel deliver1 deliver2 0 0 w w log1 log2
              (w1, l1) ltac:(done) Hrun) as ([w2 l2] & Hr2 & Hd & Hf).
  exists w2, l2. done.
Qed.

(** ** The two paths *)

Lemma reportedDone_app year l1 l2 :
  reportedDone year (l1 ++ l2) = reportedDone year l1 || reportedDone year l2.
Proof. apply existsb_app. Qed.

(** When every attempt from the next on meets the same, the retry loop
    does to the disk what its first attempt does, and reports the year done
    exactly when that attempt succeeds. *)
Lemma attempts_as_one (n : nat) :
  forall fuel id year a w log,
    (0 <= a)%Z -> (retries <= a + Z.of_nat n)%Z -> (a + Z.of_nat n < maxInt)%Z -> n < fuel ->
    (forall k w, (a + 1 <= k <= retries + 1)%Z ->
       ScrapeYear lib (net year k) year out w
       = ScrapeYear lib (net year (a + 1)) year out w) ->
    exists w' events,
      attempts' fuel id year a w log = Some (w', log ++ events)
      /\ sameDisk w' (ScrapeYear lib (net year (a + 1)) year out w).2
      /\ (forall y, reportedDone y events
                    = match (ScrapeYear lib (net year (a + 1)) year out w).1 with
                      | None => (year =? y)%Z
                      | Some _ => false
                      end).
Proof.
  unfold maxInt.
  induction n as [|n IH]; intros fuel id year a w log Ha Hn Hmax Hfuel Hsame;
    (destruct fuel as [|fuel]; [lia|]); cbn [attempts].
  all: rewrite wrap_small by lia.
  all: destruct (ScrapeYear lib (net year (a + 1)) year out w) as [[e|] w1] eqn:Hs;
    cbn [fst snd].
  all: try (exists w1, [Scraping id year (a + 1); DoneWorker id year];
            split_and!; [by rewrite <- !app_assoc|done|];
            intros y; cbn; by rewrite !orb_false_r).
  - assert ((a + 1 >? retries)%Z = true) as -> by lia.
    exists w1, [Scraping id year (a + 1); ErrorScraping id year e; GivingUp id year (a + 1)].
    split_and!; [by rewrite <- !app_assoc|done|done].
  - destruct (Z.gtb_spec (a + 1) retries).
    { exists w1, [Scraping id year (a + 1); ErrorScraping id year e;
                  GivingUp id year (a + 1)].
      split_and!; [by rewrite <- !app_assoc|done|done]. }
    assert (forall w0, ScrapeYear lib (net year (a + 1 + 1)) year out w0
                       = ScrapeYear lib (net year (a + 1)) year out w0) as Hnext
      by (intros w0; apply Hsame; lia).
    destruct (IH fuel id year (a + 1)%Z w1
                (((log ++ [Scraping id year (a + 1)]) ++ [ErrorScraping id year e])
                   ++ [Sleep (wrap (retryDelay * Second))]))
      as (w' & events & Hrun & Hdisk & Hdone); try lia.
    { intros k w0 Hk. rewrite Hnext. apply Hsame. lia. }
    rewrite Hnext in Hdisk, Hdone.
    assert (w1 = (ScrapeYear lib (net year (a + 1)) year out w).2) as Hw1 by (by rewrite Hs).
    exists w', ([Scraping id year (a + 1); ErrorScraping id year e;
                 Sleep (wrap (retryDelay * Second))] ++ events).
    split_and!.
    + rewrite Hrun. by rewrite <- !app_assoc.
    + destruct Hdisk as [Hd Hf].
      destruct (ScrapeYear_again (net year (a + 1)) year w) as [Hd' Hf'].
      rewrite <- Hw1 in Hd', Hf'. split; congruence.
    + intros y. rewrite reportedDone_app, Hdone.
      rewrite (ScrapeYear_error (net year (a + 1)) year w1 w), Hs. done.
Qed.

Lemma steady_without_retries : (retries <= 0)%Z -> steady lib net retries out.
Proof. intros HR year k w Hk. by replace k with 1%Z by lia. Qed.

(** The pool does to the disk and to the report of every year what the
    sequential path does, when every attempt meets what the first meets. *)
Lemma pool_as_sequential (years : list Z) :
  (retries < maxInt)%Z -> steady lib net retries out ->
  forall fuel deliver k w1 w2 log1 log2 y,
    Z.to_nat retries < fuel -> sameDisk w1 w2 ->
    reportedDone y log1 = reportedDone y log2 ->
    exists r,
      pool' fuel deliver k years w2 log2 = Some r
      /\ outcome out y r = outcome out y (sequential lib net out years w1 log1).
Proof.
  intros HR Hsteady. induction years as [|y0 years IH];
    intros fuel deliver k w1 w2 log1 log2 y Hfuel Hdisk Hlog; cbn [pool worker sequential].
  - eexists. split; [done|]. unfold outcome. cbn [fst snd]. destruct Hdisk as [_ Hf].
    by rewrite Hlog, Hf.
  - destruct (attempts_as_one (Z.to_nat retries) fuel (deliver k) y0 0 w2
                (log2 ++ [Queueing y0]))
      as (w2' & events & -> & Hdisk2 & Hdone); unfold maxInt in *; try lia.
    { intros j w0 Hj. by apply Hsteady. }
    change (0 + 1)%Z with 1%Z in *.
    pose proof (ScrapeYear_sameDisk (net y0 1%Z) y0 w1 w2 Hdisk) as Hdisk1.
    pose proof (ScrapeYear_error (net y0 1%Z) y0 w2 w1) as Herr.
    specialize (Hdone y). rewrite Herr in Hdone.
    destruct (ScrapeYear lib (net y0 1%Z) y0 out w1) as [[e|] w1']; cbn [fst snd] in *.
    all: apply IH; [done| |].
    all: try (destruct Hdisk1, Hdisk2; split; congruence).
    all: rewrite !reportedDone_app, Hlog, Hdone; cbn; by rewrite ?orb_false_r.
Qed.

(** C5, as amended: the two paths give every year the same outcome (the
    same report, done or not, and the same content of its file) when the
    retry count is 0 or less, and also when every attempt at a year that
    the retry count allows meets what the first one meets.  With that the
    run of the pool ends (for a retry count below the largest [int]); the
    sequential path, which makes one attempt at every year and never
    retries, always ends. *)
Theorem C5_paths_agree (c1 c2 : Z) (fuel : nat) (deliver : nat -> Z) (years : list Z)
    (w : World) (log : list Event) (y : Z) :
  (retries < maxInt)%Z -> Z.to_nat retries < fuel ->
  (retries <= 0)%Z \/ steady lib net retries out ->
  exists r1 r2,
    main lib net retries retryDelay out c1 fuel deliver years w log = Some r1
    /\ main lib net retries retryDelay out c2 fuel deliver years w log = Some r2
    /\ outcome out y r1 = outcome out y r2.
Proof.
  intros HR Hfuel Hsteady.
  assert (steady lib net retries out) as Hs
    by (destruct Hsteady; [by apply steady_without_retries|done]).
  assert (forall c, exists r,
            main lib net retries retryDelay out c fuel deliver years w log = Some r
            /\ outcome out y r = outcome out y (sequential lib net out years w log))
    as Hpath.
  { intros c. unfold main. destruct (c <=? 1)%Z; [by eexists|].
    by apply (pool_as_sequential years HR Hs fuel deliver 0 w w log log y). }
  destruct (Hpath c1) as (r1 & E1 & O1). destruct (Hpath c2) as (r2 & E2 & O2).
  exists r1, r2. split_and!; [done..|]. by rewrite O1, O2.
Qed.

End RunFacts.

(** * The years of a run *)

Lemma wrap_range n : (- 2 ^ 63 <= wrap n <= maxInt)%Z.
Proof. unfold wrap, maxInt. Z.div_mod_to_equations. lia. Qed.

(** The loop from [y] on, with [n] years to go up to [to]. *)
Lemma yearsLoop_upto (n : nat) :
  forall fuel y to acc,
    (- 2 ^ 63 <= y)%Z -> (to < maxInt)%Z -> (y + Z.of_nat n = to + 1)%Z -> n < fuel ->
    yearsLoop fuel y to acc = Some (acc ++ seqZ y (Z.of_nat n)).
Proof.
  unfold maxInt.
  induction n as [|n IH]; intros fuel y to acc Hy Hto Hn Hfuel;
    (destruct fuel as [|fuel]; [lia|]); cbn [yearsLoop].
  - assert ((y <=? to)%Z = false) as -> by lia. by rewrite app_nil_r.
  - assert ((y <=? to)%Z = true) as -> by lia.
    rewrite wrap_small by lia. rewrite IH by lia.
    rewrite (seqZ_cons y) by lia. rewrite <- app_assoc. cbn [app].
    replace (Z.pred (Z.of_nat (S n))) with (Z.of_nat n) by lia.
    replace (Z.succ y) with (y + 1)%Z by lia. done.
Qed.

(** X18: the years of a run are the year of [-year] alone when it is not 0,
    whatever [-from] and [-to] say, and else the years from [-from] to
    [-to], both included, in ascending order: none when [-from] is above
    [-to].  (For [-to] below the largest [int].) *)
Theorem years_of_the_flags (fuel : nat) (year from to : Z) :
  (- 2 ^ 63 <= from)%Z -> (to < maxInt)%Z -> Z.to_nat (to - from + 1) < fuel ->
  years fuel year from to
  = Some (if (year =? 0)%Z then seqZ from (to - from + 1) else [year]).
Proof.
  intros Hfrom Hto Hfuel. unfold years. destruct (year =? 0)%Z; cbn [negb]; [|done].
  destruct (Z.le_gt_cases from (to + 1)) as [Hle|Hgt].
  - rewrite (yearsLoop_upto (Z.to_nat (to - from + 1))) by lia.
    by rewrite Z2Nat.id by lia.
  - destruct fuel as [|fuel]; [lia|]. cbn [yearsLoop].
    assert ((from <=? to)%Z = false) as -> by lia.
    unfold seqZ. by replace (Z.to_nat (to - from + 1)) with 0 by lia.
Qed.

Lemma yearsLoop_maxInt (fuel : nat) :
  forall y acc, (y <= maxInt)%Z -> yearsLoop fuel y maxInt acc = None.
Proof.
  induction fuel as [|fuel IH]; intros y acc Hy; cbn [yearsLoop]; [done|].
  assert ((y <=? maxInt)%Z = true) as -> by lia.
  apply IH, wrap_range.
Qed.

(** X19: with [-to] at the largest [int] and no [-year], the loop that lists
    the years never ends: its counter wraps around before it can pass
    [-to], so that no amount of steps gives a list. *)
Theorem years_loop_never_ends_at_maxInt (fuel : nat) (from : Z) :
  (from <= maxInt)%Z -> years fuel 0 from maxInt = None.
Proof. intros H. unfold years. cbn [Z.eqb negb]. by apply yearsLoop_maxInt. Qed.

(** * The model at work: more runs *)

(** The flags as they are by default: 2017 and 2018. *)
Lemma years_of_the_flags_witness : years 3 0 2017 2018 = Some [2017; 2018]%Z.
Proof. apply (years_of_the_flags 3 0 2017 2018); [lia|unfold maxInt; lia|cbn; lia]. Defined.

(** A thousand steps do not list the years up to the largest [int]. *)
Lemma years_loop_never_ends_at_maxInt_witness : years 1000 0 2017 maxInt = None.
Proof. apply (years_loop_never_ends_at_maxInt 1000 2017). unfold maxInt. lia. Defined.

(** The page whose table has the header row [Date; Cause Title] and no
    other row. *)
Lemma header_only_table_fails_witness :
  extract demo.lib demo.base demo.emptyTable = []
  /\ (ScrapeYear demo.lib (demo.serving "empty table") 2016 "out" demo.start).1
     = Some (errNoJudgments (pageURL 2016)).
Proof.
  apply (header_only_table_fails demo.lib (demo.serving "empty table") 2016 "out"
           demo.start (demo.page "empty table") demo.emptyTable
           (demo.headerRow ["Date"; "Cause Title"]) []);
    [lia|reflexivity..| |constructor].
  exists "Date". split; [apply list_elem_of_here|discriminate].
Defined.

(** A table with a header row and nothing else fails the attempt. *)
Lemma no_record_is_a_failure_witness :
  (ScrapeYear demo.lib (demo.serving "empty table") 2016 "out" demo.start).1
  = Some (errNoJudgments (pageURL 2016)).
Proof.
  pose proof (no_record_is_a_failure demo.lib (demo.serving "empty table") 2016 "out"
                demo.start (demo.page "empty table") demo.emptyTable
                ltac:(lia) eq_refl eq_refl eq_refl) as H.
  cbn zeta in H. destruct H as [[_ H] _]. apply H. apply Forall_nil_2.
Defined.



(** Served at the second attempt, with three retries allowed: two
    attempts, two seconds apart, and the record is in the file. *)
Lemma first_success_ends_the_job_witness :
  exists w' events,
    attempts demo.lib flaky 3 2 "out" 4 1 2016 0 demo.start [] = Some (w', [] ++ events)
    /\ List.filter timing events
       = [Scraping 1 2016 1; Sleep 2000000000; Scraping 1 2016 2]
    /\ length (List.filter isScraping events) = 2
    /\ last events = Some (DoneWorker 1 2016)
    /\ exists js, js <> [] /\ files w' !! outFile "out" 2016 = Some (Complete js).
Proof.
  apply (first_success_ends_the_job demo.lib flaky 3 2 "out" 4 1 2016 2 demo.start []).
  - lia.
  - unfold maxInt. lia.
  - unfold Second. lia.
  - intros j w Hj. assert (j = 1%Z) as -> by lia. discriminate.
  - intros w. reflexivity.
  - cbn. lia.
Defined.

(** The year 2015 with two retries: three attempts, five seconds apart,
    and the world is as it was. *)
Lemma unsupported_year_is_retried_witness :
  exists events,
    attempts demo.lib (fun _ _ => demo.serving "scenario") 2 5 "out" 3 1 2015 0
      demo.start []
    = Some (demo.start, [] ++ events)
    /\ List.filter timing events
       = [Scraping 1 2015 1; Sleep 5000000000; Scraping 1 2015 2; Sleep 5000000000;
          Scraping 1 2015 3]
    /\ last events = Some (GivingUp 1 2015 3).
Proof.
  apply (unsupported_year_is_retried demo.lib (fun _ _ => demo.serving "scenario") 2 5
           "out" 3 1 2015 demo.start []).
  - lia.
  - unfold maxInt. lia.
  - unfold Second. lia.
  - cbn. lia.
Defined.

(** Two years taken in either order, by either worker. *)
Lemma pool_order_is_irrelevant_witness :
  exists w1 l1 w2 l2,
    pool demo.lib flaky 1 2 "out" 2 (fun _ => 1%Z) 0 [2016; 2017]%Z demo.start []
    = Some (w1, l1)
    /\ pool demo.lib flaky 1 2 "out" 2 (fun _ => 2%Z) 0 [2017; 2016]%Z demo.start []
       = Some (w2, l2)
    /\ dirs w2 = dirs w1 /\ files w2 = files w1.
Proof.
  destruct (pool_end demo.lib flaky 1 2 "out" [2016; 2017]%Z 2 (fun _ => 1%Z) 0
              demo.start []) as (w1 & l1 & E & _); [unfold maxInt; lia|cbn; lia|].
  destruct (pool_order_is_irrelevant demo.lib flaky 1 2 "out" 2 (fun _ => 1%Z)
              (fun _ => 2%Z) [2016; 2017]%Z [2017; 2016]%Z demo.start [] [] w1 ([] ++ l1))
    as (w2 & l2 & H2 & Hd & Hf); [apply perm_swap|exact E|].
  exists w1, ([] ++ l1), w2, l2. split_and!; [exact E|exact H2|exact Hd|exact Hf].
Defined.

(** Without retries the flaky year fails on both paths; with three retries
    a year that is served at every attempt is scraped on both. *)
Lemma C5_paths_agree_witness :
  (exists r1 r2,
     main demo.lib flaky 0 2 "out" 1 1 (fun _ => 1%Z) [2016%Z] demo.start [] = Some r1
     /\ main demo.lib flaky 0 2 "out" 2 1 (fun _ => 1%Z) [2016%Z] demo.start [] = Some r2
     /\ outcome "out" 2016 r1 = outcome "out" 2016 r2)
  /\ (exists r1 r2,
        main demo.lib (fun _ _ => demo.serving "scenario") 3 2 "out" 1 4 (fun _ => 1%Z)
          [2016%Z] demo.start [] = Some r1
        /\ main demo.lib (fun _ _ => demo.serving "scenario") 3 2 "out" 2 4 (fun _ => 1%Z)
             [2016%Z] demo.start [] = Some r2
        /\ outcome "out" 2016 r1 = outcome "out" 2016 r2).
Proof.
  split.
  - apply (C5_paths_agree demo.lib flaky 0 2 "out" 1 2 1 (fun _ => 1%Z) [2016%Z]
             demo.start [] 2016); [unfold maxInt; lia|cbn; lia|left; lia].
  - apply (C5_paths_agree demo.lib (fun _ _ => demo.serving "scenario") 3 2 "out" 1 2 4
             (fun _ => 1%Z) [2016%Z] demo.start [] 2016);
      [unfold maxInt; lia|cbn; lia|right; intros year k w _; reflexivity].
Defined.
